(** * RoadSafetyGPT: the retrieval-and-generation pipeline

    A shallow embedding of [src/data_processor.py] and [src/rag_engine.py].

    Conventions.
    - A Python [str] is a sequence of Unicode code points: [str := list N].
      Literals of the source are written [lit "..."].
    - A call into a library or a remote service may raise: it returns a
      [result].  [exn] stands for an instance of Python's [Exception] class,
      carrying the text [str(e)] that an f-string renders.
    - The two remote services of the engine (retriever and generation model)
      leave an [event] in the trace of the computation, in call order.
    - [print] goes through a [Console] where it writes the caller's text
      (the question in [query], the directory and the file names in
      [load_documents]): the call raises when the stream cannot encode the
      text.  The other calls of [print] write fixed or computed reports and
      are left out. *)

From Stdlib Require Import String Ascii NArith ZArith QArith Lia Bool List Sorted.
Import ListNotations.
Close Scope Q_scope.

Set Implicit Arguments.

(** ** Python strings *)

Module Py.

Definition char := N.
Definition str := list char.

Definition lit (s : string) : str := map N_of_ascii (list_ascii_of_string s).

Definition NL : char := 10%N.

(** [str.isspace] on one code point (the Unicode white-space set that
    [str.strip()] and the regex class [\s] use). *)
Definition isspace (c : char) : bool :=
  ((9 <=? c) && (c <=? 13) || (28 <=? c) && (c <=? 32)
   || (c =? 133) || (c =? 160) || (c =? 5760)
   || (8192 <=? c) && (c <=? 8202)
   || (c =? 8232) || (c =? 8233) || (c =? 8239) || (c =? 8287)
   || (c =? 12288))%N.

Fixpoint lstrip (s : str) : str :=
  match s with
  | [] => []
  | c :: r => if isspace c then lstrip r else s
  end.

Definition rstrip (s : str) : str := rev (lstrip (rev s)).

(** [s.strip()] *)
Definition strip (s : str) : str := rstrip (lstrip s).

Definition str_eqb (a b : str) : bool :=
  if list_eq_dec N.eq_dec a b then true else false.

(** [s.startswith(p)] *)
Fixpoint startswith (s p : str) : bool :=
  match p, s with
  | [], _ => true
  | _ :: _, [] => false
  | a :: p', b :: s' => (a =? b)%N && startswith s' p'
  end.

(** [sep.join(parts)] *)
Fixpoint join (sep : str) (parts : list str) : str :=
  match parts with
  | [] => []
  | [p] => p
  | p :: rest => p ++ sep ++ join sep rest
  end.

(** The pieces of [text] between the leftmost non-overlapping occurrences of
    a non-empty [sep]: [text.split(sep)], and [re.split(re.escape(sep), text)].
    [skip] counts the characters of a matched separator still to be passed,
    [cur] is the piece being read, reversed. *)
Fixpoint split_from (sep : str) (skip : nat) (cur : str) (text : str)
  : list str :=
  match text with
  | [] => [rev cur]
  | c :: rest =>
      match skip with
      | S k => split_from sep k cur rest
      | O =>
          if startswith text sep
          then rev cur :: split_from sep (length sep - 1) [] rest
          else split_from sep 0 (c :: cur) rest
      end
  end.

Definition split (text sep : str) : list str := split_from sep 0 [] text.

(** [sub in text] for strings, and [re.search(re.escape(sub), text)] *)
Fixpoint contains (text sub : str) : bool :=
  startswith text sub ||
  match text with
  | [] => false
  | _ :: rest => contains rest sub
  end.

(** [str(n)] for a non-negative [int] *)
Fixpoint digits (u : Decimal.uint) : str :=
  match u with
  | Decimal.Nil => []
  | Decimal.D0 r => 48%N :: digits r
  | Decimal.D1 r => 49%N :: digits r
  | Decimal.D2 r => 50%N :: digits r
  | Decimal.D3 r => 51%N :: digits r
  | Decimal.D4 r => 52%N :: digits r
  | Decimal.D5 r => 53%N :: digits r
  | Decimal.D6 r => 54%N :: digits r
  | Decimal.D7 r => 55%N :: digits r
  | Decimal.D8 r => 56%N :: digits r
  | Decimal.D9 r => 57%N :: digits r
  end.

Definition str_of_int (n : N) : str := digits (N.to_uint n).

End Py.

Import Py.

(** ** Exceptions, results and the trace of remote calls *)

Inductive exn_class :=
| LookupError | IndexError | KeyError | ValueError | TypeError
| AttributeError | OtherException.

(** An instance of [Exception]: its class and the text of [str(e)]. *)
Record exn := Exn { exn_cls : exn_class; exn_text : str }.

(** [except LookupError] also takes its subclasses. *)
Definition is_LookupError (e : exn) : bool :=
  match exn_cls e with
  | LookupError | IndexError | KeyError => true
  | _ => false
  end.

Inductive result (A : Type) :=
| Ok (a : A)
| Raise (e : exn).
Arguments Ok {A} a.
Arguments Raise {A} e.

Definition rbind {A B} (r : result A) (k : A -> result B) : result B :=
  match r with
  | Ok a => k a
  | Raise e => Raise e
  end.

Fixpoint rmap {A B} (f : A -> result B) (l : list A) : result (list B) :=
  match l with
  | [] => Ok []
  | a :: r => rbind (f a) (fun b => rbind (rmap f r) (fun bs => Ok (b :: bs)))
  end.

Inductive event :=
| EvRetrieve (question : str)      (* the retriever embeds and searches *)
| EvGenerate (prompt : str).       (* the generation model is called *)

Definition M (A : Type) : Type := (list event * result A)%type.

Definition ret {A} (a : A) : M A := ([], Ok a).

Definition bind {A B} (m : M A) (k : A -> M B) : M B :=
  match m with
  | (tr, Ok a) => let (tr', r) := k a in (tr ++ tr', r)
  | (tr, Raise e) => (tr, Raise e)
  end.

Definition lift {A} (r : result A) : M A := ([], r).

Definition call {A} (ev : event) (r : result A) : M A := ([ev], r).

(** [try: body except Exception as e: handler(e)] *)
Definition try_except {A} (body : M A) (handler : exn -> M A) : M A :=
  match body with
  | (tr, Ok a) => (tr, Ok a)
  | (tr, Raise e) => let (tr', r) := handler e in (tr ++ tr', r)
  end.

Declare Scope py_scope.
Delimit Scope py_scope with py.
Notation "x <- c ;; k" := (bind c (fun x => k))
  (at level 61, c at next level, right associativity) : py_scope.
Notation "x <~ c ;; k" := (rbind c (fun x => k))
  (at level 61, c at next level, right associativity) : py_scope.
Local Open Scope py_scope.

(** ** Library objects

    The code reaches NLTK, gensim, scikit-learn, Chroma and the Gemini
    client through the calls below; each record lists the calls the source
    makes on the object, with what the call returns or raises. *)

(** Unicode tables behind [str.lower()] and the regex class [\w]. *)
Record Unicode := {
  str_lower : str -> str;
  is_word : char -> bool
}.

Record NLTK := {
  data_find : string -> result unit;           (* nltk.data.find *)
  download : string -> result bool;            (* nltk.download *)
  word_tokenize : str -> result (list str);
  stopwords_words : string -> result (list str) (* stopwords.words *)
}.

(** A bag of words: (token id, count). *)
Definition bow := list (N * N).

(** A trained [gensim.models.LdaModel]. *)
Record LdaModel := {
  id2word_doc2bow : list str -> result bow;        (* self.id2word.doc2bow *)
  getitem : bow -> result (list (N * Q));          (* self[bow] *)
  show_topic : N -> nat -> result (list (str * Q)) (* show_topic(t, topn) *)
}.

Record Document := {
  page_content : str;
  metadata : list (str * str)
}.

(** The Chroma store; [store_bool] is the truth value Python gives it. *)
Record VectorStore := { store_bool : bool }.

Record Retriever := { invoke : str -> result (list Document) }.

(** The chat model; [llm_invoke p] is [self.llm.invoke(p).content]. *)
Record ChatModel := { llm_invoke : str -> result str }.

(** The standard output; [console_print text] is [print(text)], which
    raises [UnicodeEncodeError] when the stream cannot encode [text]. *)
Record Console := { console_print : str -> result unit }.

(** ** data_processor.py: preprocess_text *)

Section Preprocess.

Variable U : Unicode.
Variable nltk : NLTK.

(** [try: nltk.data.find(resource) except LookupError: nltk.download(pkg)] *)
Definition ensure_resource (resource pkg : string) : result unit :=
  match data_find nltk resource with
  | Ok _ => Ok tt
  | Raise e =>
      if is_LookupError e then _ <~ download nltk pkg ;; Ok tt else Raise e
  end.

(** [re.sub(r'[^\w\s]', '', text)] *)
Definition remove_punctuation (text : str) : str :=
  filter (fun c => is_word U c || isspace c) text.

Definition str_in (w : str) (l : list str) : bool :=
  existsb (str_eqb w) l.

Definition keep_token (stop_words : list str) (word : str) : bool :=
  negb (str_in word stop_words) && (1 <? length word).

Definition preprocess_text (text : str) : result (list str) :=
  _ <~ ensure_resource "tokenizers/punkt_tab" "punkt_tab" ;;
  _ <~ ensure_resource "corpora/stopwords" "stopwords" ;;
  let text := str_lower U text in
  let text := remove_punctuation text in
  tokens <~ word_tokenize nltk text ;;
  stop_words <~ stopwords_words nltk "english" ;;
  Ok (filter (keep_token stop_words) tokens).

End Preprocess.

(** ** rag_engine.py *)

Record RAGEngine := {
  llm : ChatModel;
  vector_store : option VectorStore;
  retriever : option Retriever;
  lda_model : option LdaModel
}.

(** [bool(self.vector_store)] *)
Definition truthy (vs : option VectorStore) : bool :=
  match vs with
  | None => false
  | Some s => store_bool s
  end.

(** [max(topic_dist, key=lambda x: x[1])]: the first item whose key no later
    item exceeds; [best] is the maximum so far. *)
Fixpoint max_from (best : N * Q) (rest : list (N * Q)) : N * Q :=
  match rest with
  | [] => best
  | x :: r =>
      if negb (Qle_bool (snd x) (snd best))   (* key(x) > key(best) *)
      then max_from x r
      else max_from best r
  end.

Definition NOT_INITIALIZED : str :=
  lit "RAG Engine is not initialized. Please ensure the vector store is built first.".

Definition REFUSAL : str := lit "The provided context does not contain".
Definition HOWEVER : str := lit "However,".

Definition PROMPT_HEAD : str := lit "
You are RoadSafetyGPT, a specialized AI assistant for Indian road safety, traffic, and infrastructure codes.
Your knowledge is grounded in IRC, MoRTH, and NCRB documents. Use the provided context if relevant, otherwise provide a comprehensive answer based on standard practices and guidelines.

Structure your response with the following sections if applicable:
- **Intervention**: Recommended actions or guidelines.
- **Evidence**: Supporting facts or references from documents.
- **Severity**: Potential risks or importance level.

CONTEXT:
".

Definition comprehensive_prompt (context user_question : str) : str :=
  PROMPT_HEAD ++ context ++ lit "

QUESTION: " ++ user_question ++ lit "
ANSWER:
".

Section Engine.

Variable U : Unicode.
Variable nltk : NLTK.
Variable console : Console.

(** The body of the loop of [_format_docs_with_topics] for one document. *)
Definition format_doc (lda : option LdaModel) (doc : Document) : result str :=
  let content := page_content doc in
  match lda with
  | Some m =>
      all_tokens <~ preprocess_text U nltk content ;;
      let tokens := firstn 50 all_tokens in
      b <~ id2word_doc2bow m tokens ;;
      topic_dist <~ getitem m b ;;
      match topic_dist with
      | first :: others =>
          let dominant_topic := fst (max_from first others) in
          topic_words <~ show_topic m dominant_topic 5 ;;
          let topic_summary :=
            lit "Topic " ++ str_of_int (dominant_topic + 1) ++ lit ": "
            ++ join (lit ", ") (map fst topic_words) in
          Ok (lit "[Topic Summary: " ++ topic_summary ++ lit "]" ++ [NL]
              ++ content)
      | [] => Ok content
      end
  | None => Ok content
  end.

Definition _format_docs_with_topics (self : RAGEngine) (docs : list Document)
  : result str :=
  formatted_docs <~ rmap (format_doc (lda_model self)) docs ;;
  Ok (join [NL; NL] formatted_docs).

(** Lines 195-200 of [query]: the answer made from [response.content]. *)
Definition postprocess (content : str) : str :=
  let answer := strip content in
  if startswith answer REFUSAL then
    let lines := split answer [NL] in
    if (1 <? length lines) && startswith (strip (nth 1 lines [])) HOWEVER
    then strip (join [NL] (skipn 2 lines))
    else answer
  else answer.

(** [self.retriever.invoke(q)]; on [None] the attribute lookup raises. *)
Definition retriever_invoke (r : option Retriever) (q : str)
  : M (list Document) :=
  match r with
  | Some r => call (EvRetrieve q) (invoke r q)
  | None =>
      lift (Raise (Exn AttributeError
                     (lit "'NoneType' object has no attribute 'invoke'")))
  end.

(** The text of [print(f"\nProcessing query: {user_question}")]. *)
Definition processing_line (user_question : str) : str :=
  [NL] ++ lit "Processing query: " ++ user_question.

Definition query (self : RAGEngine) (user_question : str)
  : M (str * list Document) :=
  if negb (truthy (vector_store self)) then ret (NOT_INITIALIZED, [])
  else
    _ <- lift (console_print console (processing_line user_question)) ;;
    try_except
      (docs <- retriever_invoke (retriever self) user_question ;;
       context <- lift (_format_docs_with_topics self docs) ;;
       let prompt := comprehensive_prompt context user_question in
       content <- call (EvGenerate prompt) (llm_invoke (llm self) prompt) ;;
       ret (postprocess content, docs))
      (fun e =>
         ret (lit "An error occurred during query execution: " ++ exn_text e,
              [])).

End Engine.

(** ** The chunker

    [split_documents] builds a LangChain [RecursiveCharacterTextSplitter] and
    calls its [split_documents].  The splitter is library code; the
    definitions of this section follow its methods ([_join_docs],
    [_merge_splits], [_split_text_with_regex], [_split_text],
    [create_documents]) with the constructor's defaults that the source leaves
    untouched: separators ["\n\n", "\n", " ", ""], [keep_separator=True],
    [strip_whitespace=True], [is_separator_regex=False]. *)

Definition len (s : str) : Z := Z.of_nat (length s).

Definition is_empty {A} (l : list A) : bool :=
  match l with [] => true | _ => false end.

Section TextSplitter.

Variable chunk_size : Z.
Variable chunk_overlap : Z.

(** [_join_docs]: [None] when nothing but white space is left. *)
Definition _join_docs (docs : list str) (separator : str) : option str :=
  let text := strip (join separator docs) in
  if is_empty text then None else Some text.

(** The [while] loop of [_merge_splits]: drop leading pieces of
    [current_doc] while more than the overlap is kept, or the next piece
    would not fit.  [current_doc[0]] on an empty list raises. *)
Fixpoint pop_front (_len separator_len : Z) (current_doc : list str)
  (total : Z) : result (list str * Z) :=
  let more :=
    ((total >? chunk_overlap)
     || ((total + _len
          + (if (0 <? length current_doc)%nat then separator_len else 0)
          >? chunk_size) && (total >? 0)))%Z in
  match current_doc with
  | [] =>
      if more then Raise (Exn IndexError (lit "list index out of range"))
      else Ok ([], total)
  | d0 :: rest =>
      if more
      then pop_front _len separator_len rest
             (total - (len d0
                       + (if (1 <? length current_doc)%nat
                          then separator_len else 0)))%Z
      else Ok (current_doc, total)
  end.

(** The [for] loop of [_merge_splits] over the remaining [splits]. *)
Fixpoint merge_loop (separator : str) (splits : list str)
  (docs : list str) (current_doc : list str) (total : Z)
  : result (list str) :=
  let separator_len := len separator in
  match splits with
  | [] =>
      match _join_docs current_doc separator with
      | Some doc => Ok (docs ++ [doc])
      | None => Ok docs
      end
  | d :: later =>
      let _len := len d in
      st <~ (if (total + _len
                 + (if (0 <? length current_doc)%nat then separator_len else 0)
                 >? chunk_size)%Z
                && (0 <? length current_doc)%nat
             then
               let docs' :=
                 match _join_docs current_doc separator with
                 | Some doc => docs ++ [doc]
                 | None => docs
                 end in
               ct <~ pop_front _len separator_len current_doc total ;;
               Ok (docs', fst ct, snd ct)
             else Ok (docs, current_doc, total)) ;;
      let '(docs1, current1, total1) := st in
      let current2 := current1 ++ [d] in
      let total2 :=
        (total1 + (_len
                   + (if (1 <? length current2)%nat
                      then separator_len else 0)))%Z in
      merge_loop separator later docs1 current2 total2
  end.

Definition _merge_splits (splits : list str) (separator : str)
  : result (list str) :=
  merge_loop separator splits [] [] 0%Z.

(** [_split_text_with_regex(text, re.escape(separator), keep_separator=True)]:
    each piece after the first keeps the separator in front of it; empty
    pieces are dropped.  An empty separator gives the characters. *)
Definition _split_text_with_regex (text separator : str) : list str :=
  let splits :=
    match separator with
    | [] => map (fun c => [c]) text
    | _ =>
        match split text separator with
        | [] => []
        | p0 :: ps => p0 :: map (app separator) ps
        end
    end in
  filter (fun s => negb (is_empty s)) splits.

(** [final_chunks.extend(self._merge_splits(_good_splits, ""))] when
    [_good_splits] is not empty. *)
Definition flush_good (_good_splits final_chunks : list str)
  : result (list str) :=
  if is_empty _good_splits then Ok final_chunks
  else merged <~ _merge_splits _good_splits [] ;; Ok (final_chunks ++ merged).

(** The loop of [_split_text] over the [splits]; [deeper] is
    [self._split_text(s, new_separators)], [None] when [new_separators]
    is empty. *)
Fixpoint split_loop (deeper : option (str -> result (list str)))
  (splits : list str) (_good_splits final_chunks : list str)
  : result (list str) :=
  match splits with
  | [] => flush_good _good_splits final_chunks
  | s :: later =>
      if (len s <? chunk_size)%Z
      then split_loop deeper later (_good_splits ++ [s]) final_chunks
      else
        final1 <~ flush_good _good_splits final_chunks ;;
        match deeper with
        | None => split_loop deeper later [] (final1 ++ [s])
        | Some f =>
            other_info <~ f s ;;
            split_loop deeper later [] (final1 ++ other_info)
        end
  end.

(** [_split_text(text, separators)], where [last_separator] is
    [separators[-1]] of the list the search started from. *)
Fixpoint _split_text_from (last_separator : str) (separators : list str)
  (text : str) {struct separators} : result (list str) :=
  match separators with
  | [] =>
      split_loop None (_split_text_with_regex text last_separator) [] []
  | _s :: rest =>
      if is_empty _s
      then split_loop None (_split_text_with_regex text _s) [] []
      else if contains text _s
      then split_loop
             (if is_empty rest then None
              else Some (_split_text_from last_separator rest))
             (_split_text_with_regex text _s) [] []
      else _split_text_from last_separator rest text
  end.

Definition _split_text (text : str) (separators : list str)
  : result (list str) :=
  match separators with
  | [] => Raise (Exn IndexError (lit "list index out of range"))
  | _ => _split_text_from (last separators []) separators text
  end.

Definition default_separators : list str :=
  [[NL; NL]; [NL]; lit " "; []].

Definition split_text (text : str) : result (list str) :=
  _split_text text default_separators.

(** [create_documents] over the texts and metadata of the documents. *)
Definition splitter_split_documents (documents : list Document)
  : result (list Document) :=
  per_doc <~ rmap (fun doc =>
                     chunks <~ split_text (page_content doc) ;;
                     Ok (map (fun chunk =>
                                {| page_content := chunk;
                                   metadata := metadata doc |}) chunks))
                  documents ;;
  Ok (concat per_doc).

End TextSplitter.

(** ** data_processor.py: split_documents *)

Definition CHUNK_SIZE : Z := 1000.
Definition CHUNK_OVERLAP : Z := 200.
Definition NUM_TOPICS : N := 3.
Definition MAX_FEATURES : N := 5000.

Definition split_documents (documents : list Document)
  : result (list Document) :=
  splitter_split_documents CHUNK_SIZE CHUNK_OVERLAP documents.

(** ** data_processor.py: train_lda_model *)

Section Training.

Variable U : Unicode.
Variable nltk : NLTK.

(** [gensim.corpora.Dictionary], scikit-learn's fitted [CountVectorizer], and
    the state of the process-wide random generator when training starts. *)
Variable Dictionary : Type.
Variable CountVectorizer : Type.
Variable GlobalRandom : Type.

Record TopicLibs := {
  Dictionary_new : list (list str) -> result Dictionary;
  (* dictionary.filter_extremes(no_below, no_above): the dictionary after *)
  filter_extremes : Dictionary -> N -> Q -> result Dictionary;
  doc2bow : Dictionary -> list str -> result bow;
  (* CountVectorizer(max_features, stop_words).fit_transform(texts):
     the fitted vectorizer and the shape of the matrix *)
  fit_transform : N -> string -> list str -> result (CountVectorizer * (N * N));
  (* LdaModel(corpus, id2word, num_topics, random_state, passes) *)
  LdaModel_new : GlobalRandom -> list bow -> Dictionary -> N -> option Z -> N
                 -> result LdaModel
}.

Variable libs : TopicLibs.

(** [range(n)] *)
Definition range (n : N) : list N := map N.of_nat (seq 0 (N.to_nat n)).

Definition train_lda_model (g : GlobalRandom) (texts : list str)
  : result (LdaModel * Dictionary * CountVectorizer) :=
  processed_texts <~ rmap (preprocess_text U nltk) texts ;;
  dictionary0 <~ Dictionary_new libs processed_texts ;;
  dictionary <~ filter_extremes libs dictionary0 2 (1 # 2) ;;
  corpus <~ rmap (doc2bow libs dictionary) processed_texts ;;
  vb <~ fit_transform libs MAX_FEATURES "english" texts ;;
  let vectorizer := fst vb in
  lda_model <~ LdaModel_new libs g corpus dictionary NUM_TOPICS (Some 42%Z) 10 ;;
  _ <~ rmap (fun i => show_topic lda_model i 10) (range NUM_TOPICS) ;;
  Ok (lda_model, dictionary, vectorizer).

End Training.

(** ** A small concrete world

    Stand-ins for the libraries, small enough to evaluate: ASCII case
    tables, a tokenizer that cuts at blanks, a three-topic model, a retriever
    that returns one chunk and a chat model with a canned answer. *)

Module Demo.

Definition ascii_lower (c : char) : char :=
  if ((65 <=? c) && (c <=? 90))%N then (c + 32)%N else c.

Definition ascii_word (c : char) : bool :=
  ((48 <=? c) && (c <=? 57) || (65 <=? c) && (c <=? 90)
   || (97 <=? c) && (c <=? 122) || (c =? 95))%N.

Definition unicode : Unicode :=
  {| str_lower := map ascii_lower; is_word := ascii_word |}.

Definition nltk : NLTK :=
  {| data_find := fun _ => Ok tt;
     download := fun _ => Ok true;
     word_tokenize := fun t =>
       Ok (filter (fun s => negb (is_empty s)) (split t (lit " ")));
     stopwords_words := fun _ => Ok [lit "the"; lit "is"; lit "of"] |}.

(** Token ids: "road" is 0, "speed" is 1; other tokens are unknown. *)
Definition count_of (w : str) (tokens : list str) : N :=
  N.of_nat (length (filter (str_eqb w) tokens)).

Definition demo_doc2bow (tokens : list str) : bow :=
  filter (fun p => (0 <? snd p)%N)
    [(0%N, count_of (lit "road") tokens); (1%N, count_of (lit "speed") tokens)].

Definition lda : LdaModel :=
  {| id2word_doc2bow := fun tokens => Ok (demo_doc2bow tokens);
     getitem := fun b =>
       if is_empty b then Ok []
       else Ok [(0%N, (1 # 4)%Q); (1%N, (3 # 8)%Q); (2%N, (3 # 8)%Q)];
     show_topic := fun t topn =>
       Ok (firstn topn
             [(lit "road", (1 # 5)%Q); (lit "speed", (1 # 5)%Q); (lit "limit", (1 # 5)%Q);
              (lit "sign", (1 # 5)%Q); (lit "zone", (1 # 10)%Q); (lit "lane", (1 # 10)%Q)])
  |}.

Definition chunk : Document :=
  {| page_content := lit "The Road speed limit is 50";
     metadata := [(lit "source", lit "irc.pdf")] |}.

Definition plain_chunk : Document :=
  {| page_content := lit "Zebra crossings"; metadata := [] |}.

Definition the_retriever : Retriever := {| invoke := fun _ => Ok [chunk] |}.

Definition chat : ChatModel := {| llm_invoke := fun _ => Ok (lit " ok ") |}.

Definition engine : RAGEngine :=
  {| llm := chat;
     vector_store := Some {| store_bool := true |};
     retriever := Some the_retriever;
     lda_model := Some lda |}.

Definition engine_without_store : RAGEngine :=
  {| llm := chat; vector_store := None; retriever := None;
     lda_model := None |}.

Definition failing_chat : ChatModel :=
  {| llm_invoke := fun _ => Raise (Exn OtherException (lit "network down")) |}.

(** A UTF-8 stream: every code point but a surrogate can be written.
    ([UnicodeEncodeError] is a subclass of [ValueError].) *)
Definition is_surrogate (c : char) : bool :=
  ((55296 <=? c) && (c <=? 57343))%N.

Definition utf8_console : Console :=
  {| console_print := fun text =>
       if existsb is_surrogate text
       then Raise (Exn ValueError
                     (lit "'utf-8' codec can't encode character: surrogates not allowed"))
       else Ok tt |}.

(** An ASCII stream (a C locale): code points from 128 on cannot be written. *)
Definition ascii_console : Console :=
  {| console_print := fun text =>
       if existsb (fun c => (128 <=? c)%N) text
       then Raise (Exn ValueError
                     (lit "'ascii' codec can't encode character: ordinal not in range(128)"))
       else Ok tt |}.

Definition engine_failing_llm : RAGEngine :=
  {| llm := failing_chat;
     vector_store := Some {| store_bool := true |};
     retriever := Some the_retriever;
     lda_model := None |}.

End Demo.

(** Stand-ins for the training libraries: a dictionary is its vocabulary,
    the vectorizer refuses an empty corpus as scikit-learn does, and the
    fitted model depends on the seed when one is given, on the global
    generator otherwise. *)
Module DemoTraining.

Definition model (n : N) : LdaModel :=
  {| id2word_doc2bow := fun tokens => Ok (Demo.demo_doc2bow tokens);
     getitem := fun _ => Ok [(0%N, (1 # 2)%Q)];
     show_topic := fun t topn =>
       Ok (firstn topn [(lit "road", (1 # Pos.of_succ_nat (N.to_nat n))%Q)])
  |}.

Definition libs : TopicLibs (list str) unit N :=
  {| Dictionary_new := fun texts => Ok (concat texts);
     filter_extremes := fun d _ _ => Ok d;
     doc2bow := fun _ tokens => Ok (Demo.demo_doc2bow tokens);
     fit_transform := fun _ _ texts =>
       if is_empty texts
       then Raise (Exn ValueError
                     (lit "empty vocabulary; perhaps the documents only contain stop words"))
       else Ok (tt, (N.of_nat (length texts), 0%N));
     LdaModel_new := fun g _ _ _ seed _ =>
       Ok (model (match seed with Some s => Z.to_N s | None => g end)) |}.

End DemoTraining.

(** ** Statements about [query] *)

(** What the handler of [query] returns for the exception [e]. *)
Definition error_answer (e : exn) : str * list Document :=
  (lit "An error occurred during query execution: " ++ exn_text e, []).


(** ** Statements about topic enrichment *)

(** What a chunk's text becomes for the topics [topic_dist] that the model
    [m] returned: unchanged when there is none; otherwise prefixed with the
    1-based number of the topic of highest probability, the lowest id on a
    tie, and that topic's five words. *)
Definition labelled_with (m : LdaModel) (topic_dist : list (N * Q))
  (content out : str) : Prop :=
  match topic_dist with
  | [] => out = content
  | _ :: _ =>
      exists t p words,
        In (t, p) topic_dist /\
        (forall t' p', In (t', p') topic_dist ->
                       (p' <= p)%Q /\ ((p' == p)%Q -> (t <= t')%N)) /\
        show_topic m t 5 = Ok words /\
        out = lit "[Topic Summary: "
              ++ (lit "Topic " ++ str_of_int (t + 1) ++ lit ": "
                  ++ join (lit ", ") (map fst words))
              ++ lit "]" ++ [NL] ++ content
  end.

(** ** Statements about [preprocess_text] *)

(** [str.lower()] leaves alone a string made of characters that occur in a
    lowercased string. *)
Definition lower_stable (U : Unicode) : Prop :=
  forall t w : str, incl w (str_lower U t) -> str_lower U w = w.

(** On a text of word characters and white space, the tokenizer only cuts:
    the characters of a token are characters of the text. *)
Definition tokens_from_text (U : Unicode) (nltk : NLTK) : Prop :=
  forall (t : str) (tokens : list str),
    Forall (fun c => is_word U c || isspace c = true) t ->
    word_tokenize nltk t = Ok tokens ->
    forall w, In w tokens -> incl w t.

(** ** Statements about the chunker *)

Section Windows.

Variable size : nat.      (* the chunk length *)
Variable overlap : nat.   (* the overlap of neighbours *)

(** Every chunk but the last has exactly [size] characters. *)
Fixpoint all_but_last_full (chunks : list str) : Prop :=
  match chunks with
  | [] => True
  | c :: rest =>
      match rest with
      | [] => True
      | _ :: _ => length c = size /\ all_but_last_full rest
      end
  end.

(** The last [overlap] characters of a chunk are the first [overlap]
    characters of the next one. *)
Fixpoint consecutive_overlap (chunks : list str) : Prop :=
  match chunks with
  | [] => True
  | c1 :: rest =>
      match rest with
      | [] => True
      | c2 :: _ =>
          length (firstn overlap c2) = overlap /\
          skipn (length c1 - overlap) c1 = firstn overlap c2 /\
          consecutive_overlap rest
      end
  end.

(** The chunks joined after taking the overlap off every chunk but the first. *)
Definition deoverlap (chunks : list str) : str :=
  match chunks with
  | [] => []
  | c :: rest => c ++ concat (map (skipn overlap) rest)
  end.

(** The sliding windows over [rest], [cur] being the window that is open. *)
Fixpoint windows (cur : str) (rest : str) : list str :=
  match rest with
  | [] => if is_empty cur then [] else [cur]
  | c :: r =>
      if (length cur =? size)%nat
      then cur :: windows (skipn (size - overlap) cur ++ [c]) r
      else windows (cur ++ [c]) r
  end.

End Windows.

(** The chunking property of the specification, for one document. *)
Definition chunking_claim (d : Document) : Prop :=
  exists chunks,
    split_documents [d] = Ok chunks /\
    all_but_last_full 1000 (map page_content chunks) /\
    consecutive_overlap 200 (map page_content chunks) /\
    deoverlap 200 (map page_content chunks) = page_content d.

Definition no_whitespace (s : str) : bool :=
  forallb (fun c => negb (isspace c)) s.

Module DemoChunks.

(** 600 letters, a blank, 600 letters. *)
Definition two_words : Document :=
  {| page_content := repeat 97%N 600 ++ lit " " ++ repeat 98%N 600;
     metadata := [] |}.

(** 1500 letters and digits, no white space. *)
Definition one_word : Document :=
  {| page_content := repeat 97%N 900 ++ repeat 48%N 600; metadata := [] |}.

End DemoChunks.

(** ** Statements about input validation *)

(** A computation that rejects its input before any remote call: its trace
    is empty, and it raises or answers with a message and no chunk. *)
Definition rejected_without_remote_call (m : M (str * list Document)) : Prop :=
  fst m = [] /\
  ((exists e, snd m = Raise e) \/ (exists msg, snd m = Ok (msg, []))).

(** ** Further statements about the chunker *)

(** The characters held by a list of pieces. *)
Fixpoint total_len (pieces : list str) : Z :=
  match pieces with
  | [] => 0
  | p :: rest => len p + total_len rest
  end%Z.

(** A chunk as the splitter emits it: within the size, not empty, and with
    no white space at either end. *)
Definition well_formed_chunk (chunk_size : Z) (c : str) : Prop :=
  (len c <= chunk_size)%Z /\ c <> [] /\ strip c = c.

(** ** rag_engine.py: _format_docs *)

Definition _format_docs (docs : list Document) : str :=
  join [NL; NL] (map page_content docs).

(** ** Paths and the two configurations *)

(** [s.endswith(suffix)] *)
Definition endswith (s suffix : str) : bool :=
  startswith (rev s) (rev suffix).

(** [os.path.join(a, b)] on POSIX. *)
Definition path_join (a b : str) : str :=
  if startswith b (lit "/") then b
  else if is_empty a || endswith a (lit "/") then a ++ b
  else a ++ lit "/" ++ b.

Module DataProcessorConfig.
Definition RAW_DATA_PATH : str := lit "data/raw/".
Definition VECTOR_STORE_PATH : str := lit "data/vectorstore/".
Definition LDA_MODEL_PATH : str :=
  path_join VECTOR_STORE_PATH (lit "lda_model.pkl").
Definition DICTIONARY_PATH : str :=
  path_join VECTOR_STORE_PATH (lit "lda_dictionary.pkl").
Definition COUNT_VECTORIZER_PATH : str :=
  path_join VECTOR_STORE_PATH (lit "count_vectorizer.pkl").
Definition EMBEDDING_MODEL : str := lit "text-embedding-004".
End DataProcessorConfig.

Module RagEngineConfig.
Definition VECTOR_STORE_PATH : str := lit "data/vectorstore/".
Definition LDA_MODEL_PATH : str :=
  path_join VECTOR_STORE_PATH (lit "lda_model.pkl").
Definition EMBEDDING_MODEL : str := lit "models/text-embedding-004".
Definition GENERATION_MODEL : str := lit "gemini-2.5-flash".
End RagEngineConfig.

(** ** Steps of the batch job and of the engine's construction

    The calls that touch the disk or a service, and the two stages of the
    batch job that compute, leave a [step] in the trace, in call order. *)

Inductive step :=
| StMakedirs (path : str)
| StListdir (path : str)
| StLoadPdf (path : str)
| StTrain (texts : list str)
| StPickleDump (path : str)
| StSplit (documents : list Document)
| StNewEmbeddings (model : str)
| StChromaFromDocuments (chunks : list Document) (persist_directory : str)
| StPersist
| StNewChat (model : str)
| StChromaOpen (persist_directory : str)
| StPickleLoad (path : str).

Definition Tr (A : Type) : Type := (list step * result A)%type.

Definition tret {A} (a : A) : Tr A := ([], Ok a).

Definition tbind {A B} (m : Tr A) (k : A -> Tr B) : Tr B :=
  match m with
  | (tr, Ok a) => let (tr', r) := k a in (tr ++ tr', r)
  | (tr, Raise e) => (tr, Raise e)
  end.

Definition tcall {A} (s : step) (r : result A) : Tr A := ([s], r).

Notation "x <-- c ;; k" := (tbind c (fun x => k))
  (at level 61, c at next level, right associativity) : py_scope.

(** [GoogleGenerativeAIEmbeddings(model=..., google_api_key=...)] *)
Record Embeddings := { embeddings_model : str; embeddings_key : option str }.

(** ** data_processor.py: the batch job *)

Section BatchJob.

Variable U : Unicode.
Variable nltk : NLTK.
Variable Dictionary : Type.
Variable CountVectorizer : Type.
Variable GlobalRandom : Type.
Variable libs : TopicLibs Dictionary CountVectorizer GlobalRandom.

(** What [pickle.dump] is given. *)
Inductive Pickled :=
| PickledLda (m : LdaModel)
| PickledDictionary (d : Dictionary)
| PickledVectorizer (v : CountVectorizer).

(** The machine the job runs on. *)
Record Host := {
  stdout : Console;                                 (* sys.stdout *)
  environ_get : string -> option str;               (* os.environ.get *)
  os_listdir : str -> result (list str);
  pdf_load : str -> result (list Document);         (* PyPDFLoader(p).load() *)
  os_makedirs : str -> result unit;                 (* exist_ok=True *)
  (* with open(path, 'wb') as f: pickle.dump(obj, f) *)
  pickle_dump : str -> Pickled -> result unit;
  new_embeddings : str -> option str -> result Embeddings;
  Chroma_from_documents :
    list Document -> Embeddings -> str -> result VectorStore;
  persist : VectorStore -> result unit
}.

Variable host : Host.

Import DataProcessorConfig.

(** [except Exception as e: print(f"Error loading {filename}: {e}")]; a
    failure of this print leaves the handler and ends the loop. *)
Definition report_failure (filename : str) (e : exn) : result unit :=
  console_print (stdout host)
    (lit "Error loading " ++ filename ++ lit ": " ++ exn_text e).

(** The body of the loop of [load_documents] over the file names left. *)
Fixpoint load_loop (directory_path : str) (filenames : list str)
  (documents : list Document) : Tr (list Document) :=
  match filenames with
  | [] => tret documents
  | filename :: later =>
      if endswith filename (lit ".pdf") then
        let filepath := path_join directory_path filename in
        match pdf_load host filepath with
        | Ok pages =>
            (* documents.extend(loader.load()), then the report *)
            let documents1 := documents ++ pages in
            match console_print (stdout host)
                    (lit "Successfully loaded " ++ filename) with
            | Ok _ =>
                tbind (tcall (StLoadPdf filepath) (Ok tt))
                      (fun _ => load_loop directory_path later documents1)
            | Raise e =>
                tbind (tcall (StLoadPdf filepath) (report_failure filename e))
                      (fun _ => load_loop directory_path later documents1)
            end
        | Raise e =>
            tbind (tcall (StLoadPdf filepath) (report_failure filename e))
                  (fun _ => load_loop directory_path later documents)
        end
      else load_loop directory_path later documents
  end.

Definition load_documents (directory_path : str) : Tr (list Document) :=
  _ <-- ([], console_print (stdout host)
               (lit "Loading documents from: " ++ directory_path)) ;;
  filenames <-- tcall (StListdir directory_path)
                      (os_listdir host directory_path) ;;
  load_loop directory_path filenames [].

Definition extract_text_from_documents (documents : list Document)
  : list str :=
  map page_content documents.

Definition save_lda_model (lda_model : LdaModel) (dictionary : Dictionary)
  (vectorizer : CountVectorizer) : Tr unit :=
  _ <-- tcall (StPickleDump LDA_MODEL_PATH)
              (pickle_dump host LDA_MODEL_PATH (PickledLda lda_model)) ;;
  _ <-- tcall (StPickleDump DICTIONARY_PATH)
              (pickle_dump host DICTIONARY_PATH (PickledDictionary dictionary)) ;;
  tcall (StPickleDump COUNT_VECTORIZER_PATH)
        (pickle_dump host COUNT_VECTORIZER_PATH (PickledVectorizer vectorizer)).

Definition build_vector_store (chunks : list Document) : Tr VectorStore :=
  let model := lit "models/" ++ EMBEDDING_MODEL in
  embeddings <-- tcall (StNewEmbeddings model)
                       (new_embeddings host model
                          (environ_get host "GEMINI_API_KEY")) ;;
  db <-- tcall (StChromaFromDocuments chunks VECTOR_STORE_PATH)
               (Chroma_from_documents host chunks embeddings
                  VECTOR_STORE_PATH) ;;
  _ <-- tcall StPersist (persist host db) ;;
  tret db.

(** [bool(os.environ.get(name))] *)
Definition environ_set (name : string) : bool :=
  match environ_get host name with
  | Some v => negb (is_empty v)
  | None => false
  end.

(** The script under [if __name__ == "__main__":]; [g] is the state of the
    global random generator when training starts. *)
Definition main (g : GlobalRandom) : Tr unit :=
  if negb (environ_set "GEMINI_API_KEY") then tret tt
  else
    _ <-- tcall (StMakedirs VECTOR_STORE_PATH)
                (os_makedirs host VECTOR_STORE_PATH) ;;
    raw_documents <-- load_documents RAW_DATA_PATH ;;
    if negb (is_empty raw_documents) then
      let document_texts := extract_text_from_documents raw_documents in
      trained <-- tcall (StTrain document_texts)
                        (train_lda_model U nltk libs g document_texts) ;;
      let '(lda_model, dictionary, vectorizer) := trained in
      _ <-- save_lda_model lda_model dictionary vectorizer ;;
      document_chunks <-- tcall (StSplit raw_documents)
                                (split_documents raw_documents) ;;
      _ <-- build_vector_store document_chunks ;;
      tret tt
    else tret tt.

End BatchJob.

(** ** rag_engine.py: RAGEngine.__init__ *)

(** The process the engine is built in.  [pickle_load path] is
    [pickle.load(open(path, 'rb'))], the object read being a topic model. *)
Record Runtime := {
  GEMINI_API_KEY : str;          (* os.environ.get("GEMINI_API_KEY", "") *)
  (* ChatGoogleGenerativeAI(model, google_api_key, temperature) *)
  new_chat : str -> str -> Q -> result ChatModel;
  runtime_new_embeddings : str -> option str -> result Embeddings;
  (* Chroma(persist_directory, embedding_function) *)
  Chroma_open : str -> Embeddings -> result VectorStore;
  as_retriever : VectorStore -> N -> Retriever;   (* search_kwargs k *)
  pickle_load : str -> result LdaModel
}.

Section Init.

Variable rt : Runtime.

Import RagEngineConfig.

(** Step 3: the store given, or the one on disk, or [None]. *)
Definition load_store (vector_store : option VectorStore)
  (embeddings : Embeddings) : Tr (option VectorStore) :=
  if truthy vector_store then tret vector_store
  else
    match Chroma_open rt VECTOR_STORE_PATH embeddings with
    | Ok s => tcall (StChromaOpen VECTOR_STORE_PATH) (Ok (Some s))
    | Raise _ => tcall (StChromaOpen VECTOR_STORE_PATH) (Ok None)
    end.

(** Step 5: the topic model on disk, or [None]. *)
Definition load_lda : Tr (option LdaModel) :=
  match pickle_load rt LDA_MODEL_PATH with
  | Ok m => tcall (StPickleLoad LDA_MODEL_PATH) (Ok (Some m))
  | Raise _ => tcall (StPickleLoad LDA_MODEL_PATH) (Ok None)
  end.

Definition __init__ (vector_store : option VectorStore) : Tr RAGEngine :=
  if is_empty (GEMINI_API_KEY rt) then
    ([], Raise (Exn ValueError
                  (lit "GEMINI_API_KEY environment variable is not set.")))
  else
    the_llm <-- tcall (StNewChat GENERATION_MODEL)
                      (new_chat rt GENERATION_MODEL (GEMINI_API_KEY rt)
                         (1 # 10)%Q) ;;
    embeddings <-- tcall (StNewEmbeddings EMBEDDING_MODEL)
                         (runtime_new_embeddings rt EMBEDDING_MODEL
                            (Some (GEMINI_API_KEY rt))) ;;
    store <-- load_store vector_store embeddings ;;
    let the_retriever :=
      match store with
      | Some s => if store_bool s then Some (as_retriever rt s 3) else None
      | None => None
      end in
    lda <-- load_lda ;;
    (* self.retriever | self._format_docs_with_topics *)
    match the_retriever with
    | None =>
        ([], Raise (Exn TypeError
                      (lit "unsupported operand type(s) for |: 'NoneType' and 'method'")))
    | Some _ =>
        tret {| llm := the_llm; vector_store := store;
                retriever := the_retriever; lda_model := lda |}
    end.

End Init.

(** ** A small host and runtime *)

Module DemoHost.

Definition page (text : string) (source : string) : Document :=
  {| page_content := lit text; metadata := [(lit "source", lit source)] |}.

Definition pdf_pages (path : str) : result (list Document) :=
  if str_eqb path (lit "data/raw/irc67.pdf")
  then Ok [page "Zebra crossings follow IRC:67." "irc67.pdf";
           page "Road speed limit signs." "irc67.pdf"]
  else if str_eqb path (lit "data/raw/morth.pdf")
  then Ok [page "Speed limit enforcement on the road." "morth.pdf"]
  else Raise (Exn ValueError (lit "not a PDF file")).

Definition host (key : option str) (names : list str)
  : Host (list str) unit :=
  {| stdout := Demo.utf8_console;
     environ_get := fun _ => key;
     os_listdir := fun dir =>
       if str_eqb dir (lit "data/raw/") then Ok names
       else Raise (Exn OtherException (lit "No such file or directory"));
     pdf_load := pdf_pages;
     os_makedirs := fun _ => Ok tt;
     pickle_dump := fun _ _ => Ok tt;
     new_embeddings := fun model k =>
       Ok {| embeddings_model := model; embeddings_key := k |};
     Chroma_from_documents := fun chunks _ _ =>
       Ok {| store_bool := negb (is_empty chunks) |};
     persist := fun _ => Ok tt |}.

Definition names : list str :=
  [lit "irc67.pdf"; lit "notes.txt"; lit "broken.pdf"; lit "SCAN.PDF";
   lit "morth.pdf"].

Definition runtime (key : str) (on_disk : result VectorStore) : Runtime :=
  {| GEMINI_API_KEY := key;
     new_chat := fun _ _ _ => Ok Demo.chat;
     runtime_new_embeddings := fun model k =>
       Ok {| embeddings_model := model; embeddings_key := k |};
     Chroma_open := fun _ _ => on_disk;
     as_retriever := fun _ _ => Demo.the_retriever;
     pickle_load := fun _ =>
       Raise (Exn OtherException (lit "No such file or directory")) |}.

End DemoHost.

(** The console can write what [load_documents] reports about the file
    [n]: the success line, or else the failure line of the handler. *)
Definition reports_ok {Dictionary CountVectorizer : Type}
  (host : Host Dictionary CountVectorizer) (dir n : str) : Prop :=
  match pdf_load host (path_join dir n) with
  | Ok _ =>
      match console_print (stdout host) (lit "Successfully loaded " ++ n) with
      | Ok _ => True
      | Raise e => report_failure host n e = Ok tt
      end
  | Raise e => report_failure host n e = Ok tt
  end.

(** The steps [load_documents] can leave. *)
Definition is_load_step (s : step) : bool :=
  match s with
  | StListdir _ | StLoadPdf _ => true
  | _ => false
  end.

(** The steps of the batch job that reach the embedding service: the
    client is created, the chunks are embedded and stored. *)
Definition is_remote_step (s : step) : bool :=
  match s with
  | StNewEmbeddings _ | StChromaFromDocuments _ _ => true
  | _ => false
  end.

(** The names a step may carry: one embedding model, one store directory,
    and the three files of the topic model. *)
Definition names_agree (s : step) : Prop :=
  match s with
  | StNewEmbeddings m => m = lit "models/text-embedding-004"
  | StChromaFromDocuments _ d => d = lit "data/vectorstore/"
  | StChromaOpen d => d = lit "data/vectorstore/"
  | StPickleLoad p => p = lit "data/vectorstore/lda_model.pkl"
  | StPickleDump p =>
      p = lit "data/vectorstore/lda_model.pkl"
      \/ p = lit "data/vectorstore/lda_dictionary.pkl"
      \/ p = lit "data/vectorstore/count_vectorizer.pkl"
  | _ => True
  end.

(** * Properties *)

(** ** Python strings *)

Lemma lstrip_split (u : str) :
  exists w, u = w ++ lstrip u /\ Forall (fun c => isspace c = true) w.
Proof.
  induction u as [|c u IH]; simpl.
  - exists []. split; [reflexivity | constructor].
  - destruct (isspace c) eqn:E.
    + destruct IH as [w [Hw HF]]. exists (c :: w). split.
      * simpl. f_equal. exact Hw.
      * constructor; assumption.
    + exists []. split; [reflexivity | constructor].
Qed.

Lemma rstrip_split (t : str) :
  exists w, t = rstrip t ++ w /\ Forall (fun c => isspace c = true) w.
Proof.
  destruct (lstrip_split (rev t)) as [w [Hw HF]].
  exists (rev w). split.
  - unfold rstrip. rewrite <- rev_app_distr, <- Hw. symmetry. apply rev_involutive.
  - apply Forall_rev. exact HF.
Qed.

Lemma startswith_app_spaces (p a w : str) :
  Forall (fun c => isspace c = false) p ->
  Forall (fun c => isspace c = true) w ->
  startswith (a ++ w) p = startswith a p.
Proof.
  intros Hp Hw. revert a. induction Hp as [|x p Hx Hp IH]; intros a.
  - destruct a; destruct w; reflexivity.
  - destruct a as [|y a]; simpl.
    + destruct w as [|c w]; [reflexivity|]. simpl.
      inversion Hw as [|? ? Hc _]; subst.
      destruct (N.eqb_spec x c) as [->|]; [congruence | reflexivity].
    + rewrite IH. reflexivity.
Qed.

(** [s.strip().startswith(p)] and [s.lstrip().startswith(p)] agree when
    [p] has no white space. *)
Lemma startswith_strip_lstrip (p s : str) :
  Forall (fun c => isspace c = false) p ->
  startswith (strip s) p = startswith (lstrip s) p.
Proof.
  intros Hp. unfold strip.
  destruct (rstrip_split (lstrip s)) as [w [Hw HF]].
  rewrite Hw at 2. symmetry. apply startswith_app_spaces; assumption.
Qed.

Lemma HOWEVER_no_space : Forall (fun c => isspace c = false) HOWEVER.
Proof. repeat constructor. Qed.

(** ** Post-processing of the generated answer *)


Example postprocess_scenario_4 :
  postprocess
    (lit "The provided context does not contain the answer." ++ [NL]
     ++ lit "However, generally speaking..." ++ [NL]
     ++ lit "Use thermoplastic paint.")
  = lit "Use thermoplastic paint.".
Proof. reflexivity. Qed.

Example postprocess_keeps_plain_answer :
  postprocess (lit "  IRC:67 applies. " ++ [NL]) = lit "IRC:67 applies.".
Proof. reflexivity. Qed.

(** ** The monads *)

Lemma rbind_Ok {A B} (r : result A) (k : A -> result B) (b : B) :
  rbind r k = Ok b -> exists a, r = Ok a /\ k a = Ok b.
Proof. destruct r as [a|e]; simpl; [eauto | discriminate]. Qed.

Lemma rmap_Ok_map {A B} (f : A -> result B) (g : A -> B) (l : list A) :
  (forall a, In a l -> f a = Ok (g a)) -> rmap f l = Ok (map g l).
Proof.
  induction l as [|a l IH]; intros H; simpl; [reflexivity|].
  rewrite (H a (or_introl eq_refl)). simpl.
  rewrite IH by (intros; apply H; right; assumption). reflexivity.
Qed.

Lemma rmap_Forall_ex {A B} (f : A -> result B) (P : A -> B -> Prop)
  (l : list A) :
  Forall (fun a => exists b, f a = Ok b /\ P a b) l ->
  exists bs, rmap f l = Ok bs /\ Forall2 P l bs.
Proof.
  induction 1 as [|a l [b [Hb HP]] _ [bs [Hbs HF]]].
  - exists []. split; [reflexivity | constructor].
  - exists (b :: bs). cbn [rmap]. rewrite Hb. cbn [rbind]. rewrite Hbs.
    split; [reflexivity | constructor; assumption].
Qed.

(** ** The dominant topic *)

Lemma Qgt_of_negb_le (a b : Q) :
  negb (Qle_bool a b) = true -> (b < a)%Q.
Proof.
  intros H. apply Qnot_le_lt. intros Hle.
  apply Qle_bool_iff in Hle. rewrite Hle in H. discriminate.
Qed.

Lemma Qle_of_negb_le (a b : Q) :
  negb (Qle_bool a b) = false -> (a <= b)%Q.
Proof.
  intros H. apply Qle_bool_iff. destruct (Qle_bool a b); [reflexivity|discriminate].
Qed.

(** The result is [best] itself unless a later item has a larger key. *)
Lemma max_from_cases (rest : list (N * Q)) : forall best,
  max_from best rest = best \/ (snd best < snd (max_from best rest))%Q.
Proof.
  induction rest as [|y r IH]; intros best; simpl; [left; reflexivity|].
  destruct (negb (Qle_bool (snd y) (snd best))) eqn:E.
  - apply Qgt_of_negb_le in E. right.
    destruct (IH y) as [-> | H]; [exact E | eapply Qlt_trans; eassumption].
  - apply IH.
Qed.

Lemma max_from_In (rest : list (N * Q)) : forall best,
  In (max_from best rest) (best :: rest).
Proof.
  induction rest as [|y r IH]; intros best; simpl; [left; reflexivity|].
  destruct (negb (Qle_bool (snd y) (snd best))).
  - right. apply (IH y).
  - destruct (IH best) as [H | H]; [left; exact H | right; right; exact H].
Qed.

Lemma max_from_ge (rest : list (N * Q)) : forall best x,
  In x (best :: rest) -> (snd x <= snd (max_from best rest))%Q.
Proof.
  induction rest as [|y r IH]; intros best x Hin; simpl.
  - destruct Hin as [<- | []]. apply Qle_refl.
  - destruct (negb (Qle_bool (snd y) (snd best))) eqn:E.
    + apply Qgt_of_negb_le in E.
      destruct Hin as [<- | Hin].
      * apply Qle_trans with (snd y); [apply Qlt_le_weak; exact E|].
        apply IH. left; reflexivity.
      * apply IH. exact Hin.
    + apply Qle_of_negb_le in E.
      destruct Hin as [<- | [<- | Hin]].
      * apply IH. left; reflexivity.
      * apply Qle_trans with (snd best); [exact E|].
        apply IH. left; reflexivity.
      * apply IH. right; exact Hin.
Qed.

(** With topic ids in ascending order, a tie goes to the lowest id. *)
Lemma max_from_lowest (rest : list (N * Q)) : forall best x,
  StronglySorted N.lt (map fst (best :: rest)) ->
  In x (best :: rest) ->
  (snd x == snd (max_from best rest))%Q ->
  (fst (max_from best rest) <= fst x)%N.
Proof.
  induction rest as [|y r IH]; intros best x Hs Hin Heq.
  - destruct Hin as [<- | []]. simpl. apply N.le_refl.
  - simpl in Hs. inversion Hs as [|? ? Hs1 Hlt1]; subst.
    inversion Hs1 as [|? ? Hs2 Hlt2]; subst.
    inversion Hlt1 as [|? ? Hby Hbr]; subst.
    simpl in Heq |- *.
    destruct (negb (Qle_bool (snd y) (snd best))) eqn:E.
    + apply Qgt_of_negb_le in E.
      destruct Hin as [<- | Hin].
      * exfalso.
        assert (H : (snd y <= snd (max_from y r))%Q)
          by (apply max_from_ge; left; reflexivity).
        rewrite <- Heq in H.
        exact (Qlt_irrefl _ (Qlt_le_trans _ _ _ E H)).
      * apply IH; assumption.
    + apply Qle_of_negb_le in E.
      assert (Hs' : StronglySorted N.lt (map fst (best :: r)))
        by (simpl; constructor; assumption).
      destruct Hin as [<- | [<- | Hin]].
      * apply IH; [exact Hs' | left; reflexivity | exact Heq].
      * destruct (max_from_cases r best) as [-> | Hgt].
        -- apply N.lt_le_incl. exact Hby.
        -- exfalso. rewrite <- Heq in Hgt.
           exact (Qlt_irrefl _ (Qlt_le_trans _ _ _ Hgt E)).
      * apply IH; [exact Hs' | right; exact Hin | exact Heq].
Qed.

(** ** Topic enrichment *)

Lemma format_doc_without_model U nltk (doc : Document) :
  format_doc U nltk None doc = Ok (page_content doc).
Proof. reflexivity. Qed.

Lemma format_docs_without_model U nltk (self : RAGEngine) docs :
  lda_model self = None ->
  _format_docs_with_topics U nltk self docs
  = Ok (join [NL; NL] (map page_content docs)).
Proof.
  intros H. unfold _format_docs_with_topics. rewrite H.
  rewrite (rmap_Ok_map _ page_content); [reflexivity|].
  intros; apply format_doc_without_model.
Qed.

Lemma format_doc_with_model U nltk m doc all_tokens b topic_dist :
  preprocess_text U nltk (page_content doc) = Ok all_tokens ->
  id2word_doc2bow m (firstn 50 all_tokens) = Ok b ->
  getitem m b = Ok topic_dist ->
  topic_dist <> [] ->
  StronglySorted N.lt (map fst topic_dist) ->
  exists t p,
    In (t, p) topic_dist /\
    (forall t' p', In (t', p') topic_dist ->
                   (p' <= p)%Q /\ ((p' == p)%Q -> (t <= t')%N)) /\
    format_doc U nltk (Some m) doc =
      (topic_words <~ show_topic m t 5 ;;
       Ok (lit "[Topic Summary: "
           ++ (lit "Topic " ++ str_of_int (t + 1) ++ lit ": "
               ++ join (lit ", ") (map fst topic_words))
           ++ lit "]" ++ [NL] ++ page_content doc)).
Proof.
  intros Hpre Hbow Hget Hne Hsorted.
  destruct topic_dist as [|first others]; [congruence|].
  destruct (max_from first others) as [t p] eqn:Hmax.
  exists t, p. split; [|split].
  - rewrite <- Hmax. apply max_from_In.
  - intros t' p' Hin. split.
    + change p' with (snd (t', p')). change p with (snd (t, p)).
      rewrite <- Hmax. apply max_from_ge. exact Hin.
    + intros Heq. change t with (fst (t, p)). rewrite <- Hmax.
      change t' with (fst (t', p')).
      apply max_from_lowest; [exact Hsorted | exact Hin |].
      rewrite Hmax. exact Heq.
  - unfold format_doc. rewrite Hpre. cbn [rbind]. rewrite Hbow. cbn [rbind].
    rewrite Hget. cbn [rbind]. rewrite Hmax. reflexivity.
Qed.

Lemma format_doc_labelled U nltk m (doc : Document) all_tokens b topic_dist :
  preprocess_text U nltk (page_content doc) = Ok all_tokens ->
  id2word_doc2bow m (firstn 50 all_tokens) = Ok b ->
  getitem m b = Ok topic_dist ->
  StronglySorted N.lt (map fst topic_dist) ->
  (forall t, In t (map fst topic_dist) ->
             exists words, show_topic m t 5 = Ok words) ->
  exists out,
    format_doc U nltk (Some m) doc = Ok out /\
    labelled_with m topic_dist (page_content doc) out.
Proof.
  intros Hpre Hbow Hget Hs Hshow.
  destruct topic_dist as [|first others].
  - exists (page_content doc). split; [|reflexivity].
    unfold format_doc. rewrite Hpre. cbn [rbind]. rewrite Hbow. cbn [rbind].
    rewrite Hget. reflexivity.
  - destruct (@format_doc_with_model U nltk m doc all_tokens b
                (first :: others) Hpre Hbow Hget ltac:(discriminate) Hs)
      as [t [p [Hin [Hmax Hfmt]]]].
    destruct (Hshow t) as [words Hwords].
    { change t with (fst (t, p)). apply in_map. exact Hin. }
    rewrite Hwords in Hfmt. cbn [rbind] in Hfmt.
    eexists. split; [exact Hfmt|].
    exists t, p, words.
    split; [exact Hin | split; [exact Hmax | split; [exact Hwords | reflexivity]]].
Qed.

(** C4. With a topic model loaded, every chunk is preprocessed, the first 50
    tokens at most go through [doc2bow], and, of the topics the model
    returns (ids ascending, as gensim lists them), the one of highest
    probability is chosen, the lowest id on a tie; the text gets the prefix
    "[Topic Summary: Topic <id+1>: w1, ..., w5]" and a line break, the words
    being [show_topic(id, topn=5)]; the method returns the texts so
    prefixed, joined by blank lines.  With no model every chunk's text passes
    through unchanged and nothing is raised. *)
Theorem format_docs_topic_enrichment : forall U nltk,
  (forall m doc all_tokens b topic_dist,
      preprocess_text U nltk (page_content doc) = Ok all_tokens ->
      id2word_doc2bow m (firstn 50 all_tokens) = Ok b ->
      getitem m b = Ok topic_dist ->
      topic_dist <> [] ->
      StronglySorted N.lt (map fst topic_dist) ->
      (length (firstn 50 all_tokens) <= 50)%nat /\
      exists t p,
        In (t, p) topic_dist /\
        (forall t' p', In (t', p') topic_dist ->
                       (p' <= p)%Q /\ ((p' == p)%Q -> (t <= t')%N)) /\
        format_doc U nltk (Some m) doc =
          (topic_words <~ show_topic m t 5 ;;
           Ok (lit "[Topic Summary: "
               ++ (lit "Topic " ++ str_of_int (t + 1) ++ lit ": "
                   ++ join (lit ", ") (map fst topic_words))
               ++ lit "]" ++ [NL] ++ page_content doc)))
  /\
  (forall self docs,
      lda_model self = None ->
      _format_docs_with_topics U nltk self docs
      = Ok (join [NL; NL] (map page_content docs)))
  /\
  (forall (self : RAGEngine) m docs,
      lda_model self = Some m ->
      Forall (fun doc =>
                exists all_tokens b topic_dist,
                  preprocess_text U nltk (page_content doc) = Ok all_tokens /\
                  id2word_doc2bow m (firstn 50 all_tokens) = Ok b /\
                  getitem m b = Ok topic_dist /\
                  StronglySorted N.lt (map fst topic_dist) /\
                  (forall t, In t (map fst topic_dist) ->
                             exists words, show_topic m t 5 = Ok words))
             docs ->
      exists outs,
        _format_docs_with_topics U nltk self docs = Ok (join [NL; NL] outs) /\
        Forall2 (fun doc out =>
                   exists all_tokens b topic_dist,
                     preprocess_text U nltk (page_content doc)
                     = Ok all_tokens /\
                     id2word_doc2bow m (firstn 50 all_tokens) = Ok b /\
                     getitem m b = Ok topic_dist /\
                     labelled_with m topic_dist (page_content doc) out)
                docs outs).
Proof.
  intros U nltk. split; [|split].
  - intros m doc all_tokens b topic_dist Hpre Hbow Hget Hne Hs. split.
    + apply firstn_le_length.
    + eapply format_doc_with_model; eassumption.
  - intros self docs H. apply format_docs_without_model. exact H.
  - intros self m docs Hm Hdocs. unfold _format_docs_with_topics. rewrite Hm.
    destruct (@rmap_Forall_ex _ _ (format_doc U nltk (Some m))
                (fun doc out =>
                   exists all_tokens b topic_dist,
                     preprocess_text U nltk (page_content doc)
                     = Ok all_tokens /\
                     id2word_doc2bow m (firstn 50 all_tokens) = Ok b /\
                     getitem m b = Ok topic_dist /\
                     labelled_with m topic_dist (page_content doc) out)
                docs) as [outs [Hr HF]].
    { eapply Forall_impl; [|exact Hdocs].
      intros doc [all_tokens [b [dist [Hpre [Hbow [Hget [Hs Hshow]]]]]]].
      destruct (format_doc_labelled U nltk m doc Hpre Hbow Hget Hs Hshow)
        as [out [Hout Hlab]].
      exists out. split; [exact Hout|].
      exists all_tokens, b, dist. auto. }
    exists outs. rewrite Hr. split; [reflexivity | exact HF].
Qed.

(** The engine of the small world formats a chunk about roads, which gets
    the label of topic 2, and a chunk the dictionary knows no word of. *)
Lemma format_docs_topic_enrichment_witness :
  exists outs,
    _format_docs_with_topics Demo.unicode Demo.nltk Demo.engine
      [Demo.chunk; Demo.plain_chunk]
    = Ok (join [NL; NL] outs) /\
    Forall2 (fun doc out =>
               exists all_tokens b topic_dist,
                 preprocess_text Demo.unicode Demo.nltk (page_content doc)
                 = Ok all_tokens /\
                 id2word_doc2bow Demo.lda (firstn 50 all_tokens) = Ok b /\
                 getitem Demo.lda b = Ok topic_dist /\
                 labelled_with Demo.lda topic_dist (page_content doc) out)
            [Demo.chunk; Demo.plain_chunk] outs.
Proof.
  apply (proj2 (proj2 (format_docs_topic_enrichment Demo.unicode Demo.nltk))
           Demo.engine Demo.lda [Demo.chunk; Demo.plain_chunk] eq_refl).
  constructor; [|constructor; [|constructor]].
  - exists [lit "road"; lit "speed"; lit "limit"; lit "50"],
      [(0%N, 1%N); (1%N, 1%N)],
      [(0%N, (1 # 4)%Q); (1%N, (3 # 8)%Q); (2%N, (3 # 8)%Q)].
    repeat split; try reflexivity.
    + repeat constructor.
    + intros t _. eexists. reflexivity.
  - exists [lit "zebra"; lit "crossings"], [], [].
    repeat split; try reflexivity.
    + constructor.
    + intros t [].
Defined.

Example format_docs_demo :
  _format_docs_with_topics Demo.unicode Demo.nltk Demo.engine
    [Demo.chunk; Demo.plain_chunk]
  = Ok (lit "[Topic Summary: Topic 2: road, speed, limit, sign, zone]"
        ++ [NL] ++ lit "The Road speed limit is 50"
        ++ [NL; NL] ++ lit "Zebra crossings").
Proof. reflexivity. Qed.

Example format_doc_demo :
  format_doc Demo.unicode Demo.nltk (Some Demo.lda) Demo.chunk
  = Ok (lit "[Topic Summary: Topic 2: road, speed, limit, sign, zone]"
        ++ [NL] ++ lit "The Road speed limit is 50").
Proof. reflexivity. Qed.

(** C10. With a model loaded whose answer for the chunk's bag of words is
    the empty list, the chunk's text is returned as it is, without a prefix
    and without an exception. *)
Theorem format_doc_empty_distribution :
  forall U nltk m doc all_tokens b,
    preprocess_text U nltk (page_content doc) = Ok all_tokens ->
    id2word_doc2bow m (firstn 50 all_tokens) = Ok b ->
    getitem m b = Ok [] ->
    format_doc U nltk (Some m) doc = Ok (page_content doc).
Proof.
  intros U nltk m doc all_tokens b Hpre Hbow Hget.
  unfold format_doc. rewrite Hpre. cbn [rbind]. rewrite Hbow. cbn [rbind].
  rewrite Hget. reflexivity.
Qed.

Lemma format_doc_empty_distribution_witness :
  format_doc Demo.unicode Demo.nltk (Some Demo.lda) Demo.plain_chunk
  = Ok (lit "Zebra crossings").
Proof.
  apply (@format_doc_empty_distribution Demo.unicode Demo.nltk Demo.lda
           Demo.plain_chunk [lit "zebra"; lit "crossings"] []);
    reflexivity.
Defined.

(** ** The query interface *)

Lemma bind_lift_Ok {A B} (a : A) (k : A -> M B) : bind (lift (Ok a)) k = k a.
Proof. unfold bind, lift. destruct (k a). reflexivity. Qed.

(** A failure of the print that precedes the [try] leaves [query]. *)
Lemma query_print_raises U nltk console (self : RAGEngine) (q : str) (e : exn) :
  truthy (vector_store self) = true ->
  console_print console (processing_line q) = Raise e ->
  query U nltk console self q = ([], Raise e).
Proof.
  intros Ht Hp. unfold query. rewrite Ht. cbn [negb]. rewrite Hp. reflexivity.
Qed.

(** The guarded part of [query], step by step. *)
Lemma query_body_cases U nltk console (self : RAGEngine) (q : str) :
  truthy (vector_store self) = true ->
  console_print console (processing_line q) = Ok tt ->
  match retriever_invoke (retriever self) q with
  | (tr, Raise e) => query U nltk console self q = (tr, Ok (error_answer e))
  | (tr, Ok docs) =>
      match _format_docs_with_topics U nltk self docs with
      | Raise e => query U nltk console self q = (tr, Ok (error_answer e))
      | Ok context =>
          let prompt := comprehensive_prompt context q in
          match llm_invoke (llm self) prompt with
          | Raise e =>
              query U nltk console self q
              = (tr ++ [EvGenerate prompt], Ok (error_answer e))
          | Ok content =>
              query U nltk console self q
              = (tr ++ [EvGenerate prompt], Ok (postprocess content, docs))
          end
      end
  end.
Proof.
  intros Ht Hp. unfold query. rewrite Ht. cbn [negb]. rewrite Hp.
  rewrite bind_lift_Ok.
  destruct (retriever_invoke (retriever self) q) as [tr [docs|e]].
  - cbn [bind].
    destruct (_format_docs_with_topics U nltk self docs) as [context|e].
    + cbn [lift bind call]. cbv zeta.
      destruct (llm_invoke (llm self) (comprehensive_prompt context q))
        as [content|e]; cbn [ret try_except app]; unfold error_answer;
        rewrite ?app_nil_r; reflexivity.
    + cbn [lift bind try_except ret app]. rewrite !app_nil_r. reflexivity.
  - cbn [bind try_except ret]. rewrite app_nil_r. reflexivity.
Qed.

(** C1. With no vector store loaded, every question gets the fixed message
    and an empty list of chunks; nothing is raised and no service is called. *)
Theorem query_not_initialized :
  forall U nltk console (self : RAGEngine) (q : str),
  truthy (vector_store self) = false ->
  query U nltk console self q
  = ([], Ok (lit "RAG Engine is not initialized. Please ensure the vector store is built first.",
             [])).
Proof.
  intros U nltk console self q H. unfold query. rewrite H. reflexivity.
Qed.

Lemma query_not_initialized_witness :
  query Demo.unicode Demo.nltk Demo.utf8_console Demo.engine_without_store
    (lit "anything")
  = ([], Ok (lit "RAG Engine is not initialized. Please ensure the vector store is built first.",
             [])).
Proof.
  apply (@query_not_initialized Demo.unicode Demo.nltk Demo.utf8_console
           Demo.engine_without_store (lit "anything")).
  reflexivity.
Defined.

(** What the [try] of [query] does hold: once the question was printed,
    [query] returns a pair of a string and a list, and when retrieval, the
    formatting of the context or the generation call raises [e], the pair is
    the error message built from [e] with an empty list. *)
Lemma query_catches_step_failures :
  forall U nltk console (self : RAGEngine) (q : str),
  console_print console (processing_line q) = Ok tt ->
  (exists tr answer docs, query U nltk console self q = (tr, Ok (answer, docs)))
  /\
  (forall e,
      truthy (vector_store self) = true ->
      (snd (retriever_invoke (retriever self) q) = Raise e
       \/ exists docs,
           snd (retriever_invoke (retriever self) q) = Ok docs /\
           (_format_docs_with_topics U nltk self docs = Raise e
            \/ exists context,
                _format_docs_with_topics U nltk self docs = Ok context /\
                llm_invoke (llm self) (comprehensive_prompt context q)
                = Raise e)) ->
      snd (query U nltk console self q)
      = Ok (lit "An error occurred during query execution: " ++ exn_text e,
            [])).
Proof.
  intros U nltk console self q Hp. split.
  - destruct (truthy (vector_store self)) eqn:Ht.
    + pose proof (query_body_cases U nltk console self q Ht Hp) as H.
      destruct (retriever_invoke (retriever self) q) as [tr [docs|e]];
        [|unfold error_answer in H; eauto].
      destruct (_format_docs_with_topics U nltk self docs) as [context|e];
        [|unfold error_answer in H; eauto].
      cbv zeta in H.
      destruct (llm_invoke (llm self) (comprehensive_prompt context q));
        unfold error_answer in H; eauto.
    + unfold query. rewrite Ht. cbn [negb]. unfold ret. eauto.
  - intros e Ht Hfail.
    pose proof (query_body_cases U nltk console self q Ht Hp) as H.
    destruct (retriever_invoke (retriever self) q) as [tr [docs|e0]];
      cbn [snd] in Hfail.
    + destruct Hfail as [Hfail | [docs' [Hd Hfail]]]; [discriminate|].
      injection Hd as <-.
      destruct (_format_docs_with_topics U nltk self docs) as [context|e1].
      * destruct Hfail as [Hfail | [context' [Hc Hfail]]]; [discriminate|].
        injection Hc as <-. cbv zeta in H. rewrite Hfail in H.
        rewrite H. reflexivity.
      * destruct Hfail as [Hfail | [context' [Hc _]]]; [|discriminate].
        injection Hfail as <-. rewrite H. reflexivity.
    + destruct Hfail as [Hfail | [docs' [Hd _]]]; [|discriminate].
      injection Hfail as <-. rewrite H. reflexivity.
Qed.

Example query_generation_failure :
  query Demo.unicode Demo.nltk Demo.utf8_console Demo.engine_failing_llm
    (lit "q")
  = ([EvRetrieve (lit "q");
      EvGenerate (comprehensive_prompt (page_content Demo.chunk) (lit "q"))],
     Ok (lit "An error occurred during query execution: network down", [])).
Proof. reflexivity. Qed.

(** C2.  The claim does not hold of the code.  The question is printed
    after the store test and before the [try]: with a vector store loaded,
    when that print raises (the stream cannot encode the question), the
    exception leaves [query] and reaches the caller; no service has been
    called and no pair is returned. *)
Theorem query_print_failure_propagates :
  forall U nltk console (self : RAGEngine) (q : str) (e : exn),
    truthy (vector_store self) = true ->
    console_print console (processing_line q) = Raise e ->
    query U nltk console self q = ([], Raise e)
    /\ forall answer docs,
         snd (query U nltk console self q) <> Ok (answer, docs).
Proof.
  intros U nltk console self q e Ht Hp.
  rewrite (query_print_raises U nltk console self q Ht Hp).
  split; [reflexivity | intros answer docs; discriminate].
Qed.

(** The question is one lone surrogate, the stream is UTF-8. *)
Lemma query_print_failure_propagates_witness :
  query Demo.unicode Demo.nltk Demo.utf8_console Demo.engine [55296%N]
  = ([], Raise (Exn ValueError
                  (lit "'utf-8' codec can't encode character: surrogates not allowed")))
  /\ forall answer docs,
       snd (query Demo.unicode Demo.nltk Demo.utf8_console Demo.engine
              [55296%N])
       <> Ok (answer, docs).
Proof.
  apply (@query_print_failure_propagates Demo.unicode Demo.nltk
           Demo.utf8_console Demo.engine [55296%N]);
    reflexivity.
Defined.

(** A question in Devanagari on an ASCII stream. *)
Example query_print_failure_ascii :
  query Demo.unicode Demo.nltk Demo.ascii_console Demo.engine
    [2360%N; 2337%N; 2364%N; 2325%N]
  = ([], Raise (Exn ValueError
                  (lit "'ascii' codec can't encode character: ordinal not in range(128)"))).
Proof. reflexivity. Qed.

(** C9. When every step of a query succeeds, the list returned is the very
    list the retriever gave, and the topic prefixes exist only in the context
    inside the prompt sent to the generation model.  Whatever [query]
    returns, its list is empty or is the retriever's list. *)
Theorem query_returns_retrieved_docs :
  forall U nltk console (self : RAGEngine) (q : str),
    truthy (vector_store self) = true ->
    (forall r docs context content,
        console_print console (processing_line q) = Ok tt ->
        retriever self = Some r ->
        invoke r q = Ok docs ->
        _format_docs_with_topics U nltk self docs = Ok context ->
        llm_invoke (llm self) (comprehensive_prompt context q) = Ok content ->
        query U nltk console self q
        = ([EvRetrieve q; EvGenerate (comprehensive_prompt context q)],
           Ok (postprocess content, docs)))
    /\
    (forall tr answer docs,
        query U nltk console self q = (tr, Ok (answer, docs)) ->
        docs = [] \/ exists r, retriever self = Some r /\ invoke r q = Ok docs).
Proof.
  intros U nltk console self q Ht.
  split.
  - intros r docs context content Hp Hr Hinv Hfmt Hllm.
    pose proof (query_body_cases U nltk console self q Ht Hp) as H.
    unfold retriever_invoke in H. rewrite Hr in H. unfold call in H.
    rewrite Hinv, Hfmt in H. cbv zeta in H. rewrite Hllm in H. exact H.
  - intros tr answer docs Hq.
    destruct (console_print console (processing_line q)) as [[]|e0] eqn:Hp.
    2:{ rewrite (query_print_raises U nltk console self q Ht Hp) in Hq.
        discriminate. }
    pose proof (query_body_cases U nltk console self q Ht Hp) as H.
    unfold retriever_invoke in H.
    destruct (retriever self) as [r|].
    + unfold call in H. destruct (invoke r q) as [ds|e] eqn:Hinv.
      * destruct (_format_docs_with_topics U nltk self ds) as [context|e].
        -- cbv zeta in H.
           destruct (llm_invoke (llm self) (comprehensive_prompt context q)).
           ++ rewrite H in Hq. injection Hq as _ _ <-.
              right. exists r. split; [reflexivity | exact Hinv].
           ++ rewrite H in Hq. injection Hq as _ _ <-. left; reflexivity.
        -- rewrite H in Hq. injection Hq as _ _ <-. left; reflexivity.
      * rewrite H in Hq. injection Hq as _ _ <-. left; reflexivity.
    + unfold lift in H. rewrite H in Hq. injection Hq as _ _ <-.
      left; reflexivity.
Qed.

Lemma query_returns_retrieved_docs_witness :
  query Demo.unicode Demo.nltk Demo.utf8_console Demo.engine
    (lit "speed limit?")
  = ([EvRetrieve (lit "speed limit?");
      EvGenerate
        (comprehensive_prompt
           (lit "[Topic Summary: Topic 2: road, speed, limit, sign, zone]"
            ++ [NL] ++ lit "The Road speed limit is 50")
           (lit "speed limit?"))],
     Ok (postprocess (lit " ok "), [Demo.chunk])).
Proof.
  apply (proj1 (@query_returns_retrieved_docs Demo.unicode Demo.nltk
                  Demo.utf8_console Demo.engine (lit "speed limit?") eq_refl)
           Demo.the_retriever);
    reflexivity.
Defined.

(** ** Text preprocessing *)

Lemma str_in_In (w : str) (l : list str) : str_in w l = true <-> In w l.
Proof.
  unfold str_in. rewrite existsb_exists. split.
  - intros [x [Hin Heq]]. unfold str_eqb in Heq.
    destruct (list_eq_dec N.eq_dec w x); [subst; exact Hin | discriminate].
  - intros Hin. exists w. split; [exact Hin|]. unfold str_eqb.
    destruct (list_eq_dec N.eq_dec w w); [reflexivity | contradiction].
Qed.

Lemma keep_token_spec (stop_words : list str) (w : str) :
  keep_token stop_words w = true <->
  (1 < length w)%nat /\ ~ In w stop_words.
Proof.
  unfold keep_token. rewrite andb_true_iff, negb_true_iff, Nat.ltb_lt.
  rewrite <- str_in_In. split.
  - intros [H1 H2]. split; [exact H2 | congruence].
  - intros [H1 H2]. split; [|exact H1].
    destruct (str_in w stop_words); [exfalso; apply H2; reflexivity | reflexivity].
Qed.

Lemma remove_punctuation_chars U (text : str) :
  Forall (fun c => is_word U c || isspace c = true) (remove_punctuation U text)
  /\ incl (remove_punctuation U text) text.
Proof.
  unfold remove_punctuation. split.
  - apply Forall_forall. intros c Hc. apply filter_In in Hc. apply Hc.
  - intros c Hc. apply filter_In in Hc. apply Hc.
Qed.

Lemma preprocess_text_inv U nltk (text : str) (tokens : list str) :
  preprocess_text U nltk text = Ok tokens ->
  exists raw stop_words,
    word_tokenize nltk (remove_punctuation U (str_lower U text)) = Ok raw /\
    stopwords_words nltk "english" = Ok stop_words /\
    tokens = filter (keep_token stop_words) raw.
Proof.
  unfold preprocess_text. intros H.
  apply rbind_Ok in H. destruct H as [_ [_ H]].
  apply rbind_Ok in H. destruct H as [_ [_ H]].
  apply rbind_Ok in H. destruct H as [raw [Hraw H]].
  apply rbind_Ok in H. destruct H as [stop_words [Hsw H]].
  exists raw, stop_words. injection H as <-. auto.
Qed.

(** C6. [preprocess_text] lowercases, removes every character that is
    neither a word character nor white space, tokenizes, and drops the
    stop-words and the tokens of length at most 1, in this order; it is a
    function of the text for given libraries.  Every token of the result is
    longer than 1 and is no stop-word, and it is lowercase (under the
    behaviour of [str.lower] and of the tokenizer stated above). *)
Theorem preprocess_text_spec : forall U nltk (text : str),
  (forall raw stop_words,
      ensure_resource nltk "tokenizers/punkt_tab" "punkt_tab" = Ok tt ->
      ensure_resource nltk "corpora/stopwords" "stopwords" = Ok tt ->
      word_tokenize nltk (remove_punctuation U (str_lower U text)) = Ok raw ->
      stopwords_words nltk "english" = Ok stop_words ->
      preprocess_text U nltk text = Ok (filter (keep_token stop_words) raw))
  /\
  (forall tokens,
      preprocess_text U nltk text = Ok tokens ->
      exists raw stop_words,
        word_tokenize nltk (remove_punctuation U (str_lower U text)) = Ok raw /\
        stopwords_words nltk "english" = Ok stop_words /\
        tokens = filter (fun w => negb (str_in w stop_words)
                                  && (1 <? length w)%nat) raw /\
        Forall (fun w => (1 < length w)%nat /\ ~ In w stop_words) tokens /\
        (lower_stable U -> tokens_from_text U nltk ->
         Forall (fun w => str_lower U w = w) tokens))
  /\
  (forall c, In c (remove_punctuation U (str_lower U text)) <->
             In c (str_lower U text) /\ (is_word U c = true \/ isspace c = true))
  /\
  (forall text', text' = text ->
                 preprocess_text U nltk text' = preprocess_text U nltk text).
Proof.
  intros U nltk text. split; [|split; [|split]].
  - intros raw stop_words H1 H2 H3 H4. unfold preprocess_text.
    rewrite H1, H2. cbn [rbind]. rewrite H3. cbn [rbind]. rewrite H4.
    reflexivity.
  - intros tokens H.
    destruct (preprocess_text_inv _ _ _ H) as [raw [stop_words [Hraw [Hsw ->]]]].
    exists raw, stop_words. split; [exact Hraw|]. split; [exact Hsw|].
    split; [reflexivity|]. split.
    + apply Forall_forall. intros w Hw. apply filter_In in Hw.
      apply keep_token_spec. apply Hw.
    + intros Hlow Htok. apply Forall_forall. intros w Hw.
      apply filter_In in Hw. destruct Hw as [Hw _].
      apply (Hlow text).
      destruct (remove_punctuation_chars U (str_lower U text)) as [Hall Hincl].
      intros c Hc. apply Hincl. exact (Htok _ _ Hall Hraw w Hw c Hc).
  - intros c. unfold remove_punctuation. rewrite filter_In, orb_true_iff.
    reflexivity.
  - intros text' ->. reflexivity.
Qed.

Example preprocess_text_demo :
  preprocess_text Demo.unicode Demo.nltk (lit "The Road-speed limit, is 5 A 50!")
  = Ok [lit "roadspeed"; lit "limit"; lit "50"].
Proof. reflexivity. Qed.

(** ** The chunker *)

Lemma split_documents_two_words :
  split_documents [DemoChunks.two_words]
  = Ok [ {| page_content := repeat 97%N 600; metadata := [] |};
         {| page_content := repeat 98%N 600; metadata := [] |} ].
Proof. vm_compute. reflexivity. Qed.

(** A document of two long words is cut at the blank: the first chunk has
    600 characters, the chunks do not overlap and the blank is lost. *)
Lemma chunking_claim_fails : ~ chunking_claim DemoChunks.two_words.
Proof.
  intros [chunks [Hsplit [Hfull _]]].
  rewrite split_documents_two_words in Hsplit. injection Hsplit as <-.
  cbn [map page_content all_but_last_full] in Hfull.
  destruct Hfull as [Hlen _]. vm_compute in Hlen. discriminate.
Qed.

Lemma join_singletons (s : str) : join [] (map (fun c => [c]) s) = s.
Proof.
  induction s as [|c s IH]; [reflexivity|].
  destruct s as [|c' r]; [reflexivity|].
  change (join [] (map (fun c => [c]) (c :: c' :: r)))
    with ([c] ++ [] ++ join [] (map (fun c => [c]) (c' :: r))).
  rewrite IH. reflexivity.
Qed.

Lemma lstrip_head (s : str) :
  match s with [] => True | c :: _ => isspace c = false end -> lstrip s = s.
Proof. destruct s as [|c r]; simpl; [reflexivity|]. intros ->. reflexivity. Qed.

Lemma no_whitespace_In (s : str) (c : char) :
  no_whitespace s = true -> In c s -> isspace c = false.
Proof.
  unfold no_whitespace. rewrite forallb_forall. intros H Hin.
  apply negb_true_iff. apply H. exact Hin.
Qed.

Lemma strip_no_whitespace (s : str) : no_whitespace s = true -> strip s = s.
Proof.
  intros H. unfold strip, rstrip.
  assert (H1 : lstrip s = s).
  { apply lstrip_head. destruct s as [|c r]; [exact I|].
    apply (@no_whitespace_In _ _ H). left; reflexivity. }
  rewrite H1.
  assert (H2 : lstrip (rev s) = rev s).
  { apply lstrip_head. destruct (rev s) as [|c r] eqn:E; [exact I|].
    apply (@no_whitespace_In _ _ H). apply in_rev. rewrite E. left; reflexivity. }
  rewrite H2. apply rev_involutive.
Qed.

Lemma no_whitespace_app (a b : str) :
  no_whitespace (a ++ b) = no_whitespace a && no_whitespace b.
Proof. apply forallb_app. Qed.

Lemma contains_absent (text : str) (c : char) (sub : str) :
  ~ In c text -> contains text (c :: sub) = false.
Proof.
  induction text as [|x r IH]; intros Hn; [reflexivity|].
  cbn [contains startswith].
  destruct (N.eqb_spec c x) as [->|Hne].
  - exfalso. apply Hn. left; reflexivity.
  - cbn [andb orb]. apply IH. intros Hin. apply Hn. right; exact Hin.
Qed.

Lemma no_whitespace_absent (text : str) (c : char) :
  no_whitespace text = true -> isspace c = true -> ~ In c text.
Proof.
  intros H Hc Hin. rewrite (@no_whitespace_In _ _ H Hin) in Hc. discriminate.
Qed.

Lemma if_same_0 (b : bool) : (if b then 0 else 0)%Z = 0%Z.
Proof. destruct b; reflexivity. Qed.

Lemma In_skipn {A} (n : nat) (l : list A) (x : A) :
  In x (skipn n l) -> In x l.
Proof.
  intros H. rewrite <- (firstn_skipn n l). apply in_or_app. right. exact H.
Qed.

Lemma map_snoc_single (l : str) (c : char) :
  map (fun x : char => [x]) l ++ [[c]] = map (fun x : char => [x]) (l ++ [c]).
Proof. rewrite map_app. reflexivity. Qed.

Section WindowsOfSingletons.

Variable size : nat.
Variable overlap : nat.
Hypothesis overlap_lt_size : (overlap < size)%nat.
Hypothesis size_gt_1 : (1 < size)%nat.

Let cs := Z.of_nat size.
Let co := Z.of_nat overlap.

Lemma pop_front_singletons (cur : str) :
  (overlap <= length cur)%nat -> (length cur <= size)%nat ->
  pop_front cs co 1 0 (map (fun c => [c]) cur) (Z.of_nat (length cur))
  = Ok (map (fun c => [c]) (skipn (length cur - overlap) cur), co).
Proof.
  induction cur as [|c r IH]; intros Hlo Hhi.
  - cbn [length] in *. assert (overlap = 0)%nat as E by lia.
    cbn [map pop_front length]. subst cs co. rewrite E.
    cbn. rewrite andb_false_r. reflexivity.
  - cbn [map pop_front]. rewrite !if_same_0.
    unfold len. cbn [length] in *.
    rewrite !Z.gtb_ltb. subst cs co.
    destruct (Z.ltb_spec (Z.of_nat overlap) (Z.of_nat (S (length r))))
      as [Hgt|Hle].
    + cbn [orb].
      replace (Z.of_nat (S (length r)) - (Z.of_nat 1 + 0))%Z
        with (Z.of_nat (length r)) by lia.
      rewrite IH by lia.
      replace (S (length r) - overlap)%nat with (S (length r - overlap)) by lia.
      reflexivity.
    + cbn [orb].
      destruct (Z.ltb_spec (Z.of_nat size) (Z.of_nat (S (length r)) + 1 + 0));
        [lia|].
      cbn [andb].
      replace (S (length r) - overlap)%nat with 0%nat by lia.
      cbn [skipn map]. f_equal. f_equal. lia.
Qed.

Lemma join_docs_no_whitespace (cur : str) :
  no_whitespace cur = true ->
  _join_docs (map (fun c => [c]) cur) []
  = if is_empty cur then None else Some cur.
Proof.
  intros H. unfold _join_docs.
  rewrite join_singletons, (strip_no_whitespace _ H). reflexivity.
Qed.

Lemma merge_loop_singletons (rest : str) : forall (cur : str) (docs : list str),
  (length cur <= size)%nat ->
  no_whitespace cur = true -> no_whitespace rest = true ->
  merge_loop cs co [] (map (fun c => [c]) rest) docs
    (map (fun c => [c]) cur) (Z.of_nat (length cur))
  = Ok (docs ++ windows size overlap cur rest).
Proof.
  induction rest as [|c r IH]; intros cur docs Hlen Hcur Hrest.
  - cbn [map merge_loop windows].
    rewrite (join_docs_no_whitespace _ Hcur).
    destruct cur; cbn [is_empty]; [rewrite app_nil_r|]; reflexivity.
  - cbn [map merge_loop windows].
    rewrite (join_docs_no_whitespace _ Hcur).
    change (no_whitespace ([c] ++ r) = true) in Hrest.
    rewrite no_whitespace_app in Hrest.
    apply andb_true_iff in Hrest. destruct Hrest as [Hc Hr].
    rewrite !length_map. unfold len at 1 2 3 4. cbn [length].
    rewrite Z.gtb_ltb. unfold cs, co.
    destruct (Nat.eqb_spec (length cur) size) as [E|E].
    + assert (Hpos : (0 <? length cur)%nat = true)
        by (apply Nat.ltb_lt; lia).
      rewrite Hpos.
      destruct (Z.ltb_spec (Z.of_nat size)
                  (Z.of_nat (length cur) + Z.of_nat 1 + Z.of_nat 0));
        [|lia].
      cbn [andb].
      assert (Hne : is_empty cur = false)
        by (destruct cur; [cbn [length] in E; lia | reflexivity]).
      rewrite Hne.
      change (Z.of_nat 0) with 0%Z. change (Z.of_nat 1) with 1%Z.
      fold cs co. rewrite pop_front_singletons by lia. unfold cs, co.
      cbn [rbind fst snd].
      rewrite E at 1.
      rewrite map_snoc_single. rewrite ?if_same_0.
      change (len [c]) with 1%Z.
      assert (Hl : length (skipn (size - overlap) cur ++ [c]) = S overlap).
      { rewrite length_app, length_skipn. cbn [length]. lia. }
      replace (Z.of_nat overlap + (1 + 0))%Z
        with (Z.of_nat (length (skipn (size - overlap) cur ++ [c])))
        by (rewrite Hl; lia).
      rewrite IH.
      * rewrite <- app_assoc. reflexivity.
      * lia.
      * rewrite no_whitespace_app, Hc, andb_true_r.
        unfold no_whitespace in *. rewrite forallb_forall in *.
        intros x Hx. apply Hcur. eapply In_skipn. exact Hx.
      * exact Hr.
    + destruct (Z.ltb_spec (Z.of_nat size)
                  (Z.of_nat (length cur) + Z.of_nat 1
                   + (if (0 <? length cur)%nat then Z.of_nat 0 else 0)));
        [destruct (0 <? length cur)%nat; change (Z.of_nat 0) with 0%Z in *; lia|].
      cbn [andb rbind].
      rewrite map_snoc_single. rewrite ?if_same_0.
      change (len [c]) with 1%Z.
      replace (Z.of_nat (length cur) + (1 + 0))%Z
        with (Z.of_nat (length (cur ++ [c])))
        by (rewrite length_app; cbn [length]; lia).
      rewrite IH.
      * reflexivity.
      * rewrite length_app. cbn [length]. lia.
      * rewrite no_whitespace_app, Hcur, Hc. reflexivity.
      * exact Hr.
Qed.

Lemma split_loop_singletons (l : str) : forall good final,
  split_loop cs co None (map (fun c => [c]) l) good final
  = flush_good cs co (good ++ map (fun c => [c]) l) final.
Proof.
  induction l as [|c r IH]; intros good final.
  - cbn [map split_loop]. rewrite app_nil_r. reflexivity.
  - cbn [map split_loop]. unfold len. cbn [length].
    destruct (Z.ltb_spec (Z.of_nat 1) cs) as [_|H]; [|unfold cs in H; lia].
    rewrite IH. rewrite <- app_assoc. reflexivity.
Qed.

Lemma characters_not_empty (text : str) :
  filter (fun s : str => negb (is_empty s)) (map (fun c => [c]) text)
  = map (fun c => [c]) text.
Proof.
  induction text as [|c r IH]; [reflexivity|].
  cbn [map filter is_empty negb]. rewrite IH. reflexivity.
Qed.

(** A text without white space is cut into sliding windows. *)
Lemma split_text_no_whitespace (text : str) :
  no_whitespace text = true ->
  split_text cs co text = Ok (windows size overlap [] text).
Proof.
  intros H. unfold split_text, _split_text, default_separators.
  change (lit " ") with [32%N].
  cbn [_split_text_from is_empty last].
  rewrite !contains_absent
    by (apply (@no_whitespace_absent text _ H); reflexivity).
  unfold _split_text_with_regex. rewrite characters_not_empty.
  rewrite split_loop_singletons. cbn [app]. unfold flush_good.
  destruct text as [|c r]; [reflexivity|].
  cbn [map is_empty]. unfold _merge_splits.
  pose proof (@merge_loop_singletons (c :: r) [] []
                (Nat.le_0_l size) eq_refl H) as Hm.
  cbn [map length] in Hm. change (Z.of_nat 0) with 0%Z in Hm.
  match goal with
  | |- rbind ?m _ = _ =>
      assert (E : m = Ok ([] ++ windows size overlap [] (c :: r)))
        by exact Hm;
      rewrite E
  end.
  reflexivity.
Qed.

(** What the sliding windows satisfy. *)
Lemma windows_spec (rest : str) : forall cur : str,
  (length cur <= size)%nat ->
  let w := windows size overlap cur rest in
  all_but_last_full size w /\
  consecutive_overlap overlap w /\
  deoverlap overlap w = cur ++ rest /\
  match w with
  | [] => cur = [] /\ rest = []
  | c0 :: _ => exists ext, c0 = cur ++ ext
  end.
Proof.
  induction rest as [|c r IH]; intros cur Hlen.
  - cbn [windows]. destruct cur as [|x cur'].
    + cbn. auto.
    + cbn [is_empty all_but_last_full consecutive_overlap deoverlap map concat].
      repeat split; try reflexivity. exists []. symmetry. apply app_nil_r.
  - cbn [windows]. destruct (Nat.eqb_spec (length cur) size) as [E|E].
    + set (sk := skipn (size - overlap) cur).
      assert (Hsk : length sk = overlap)
        by (unfold sk; rewrite length_skipn; lia).
      assert (Hlen' : (length (sk ++ [c]) <= size)%nat)
        by (rewrite length_app; cbn [length]; lia).
      specialize (IH (sk ++ [c]) Hlen'). cbv zeta in IH.
      destruct (windows size overlap (sk ++ [c]) r) as [|c1 cs1].
      { destruct IH as [_ [_ [_ [Habs _]]]]. destruct sk; discriminate. }
      destruct IH as [Hfull [Hov [Hde [ext Hext]]]].
      assert (Hc1 : c1 = sk ++ c :: ext)
        by (rewrite Hext, <- app_assoc; reflexivity).
      assert (Hfirst : firstn overlap c1 = sk).
      { rewrite Hc1, firstn_app, Hsk, Nat.sub_diag.
        cbn [firstn]. rewrite app_nil_r. rewrite <- Hsk. apply firstn_all. }
      cbv zeta. split; [|split; [|split]].
      * cbn [all_but_last_full]. split; [exact E | exact Hfull].
      * cbn [consecutive_overlap]. split; [|split].
        -- rewrite Hfirst. exact Hsk.
        -- rewrite Hfirst, E. reflexivity.
        -- exact Hov.
      * cbn [deoverlap map concat]. cbn [deoverlap] in Hde.
        f_equal.
        assert (Hskip : skipn overlap (c1 ++ concat (map (skipn overlap) cs1))
                        = skipn overlap ((sk ++ [c]) ++ r))
          by (rewrite Hde; reflexivity).
        rewrite skipn_app in Hskip.
        replace (overlap - length c1)%nat with 0%nat in Hskip
          by (rewrite Hc1, length_app, Hsk; lia).
        cbn [skipn] in Hskip. rewrite Hskip.
        rewrite <- app_assoc, skipn_app, Hsk, Nat.sub_diag.
        rewrite <- Hsk at 1. rewrite skipn_all. reflexivity.
      * exists []. symmetry. apply app_nil_r.
    + assert (Hlen' : (length (cur ++ [c]) <= size)%nat)
        by (rewrite length_app; cbn [length]; lia).
      specialize (IH (cur ++ [c]) Hlen'). cbv zeta in IH.
      destruct (windows size overlap (cur ++ [c]) r) as [|c1 cs1].
      { destruct IH as [_ [_ [_ [Habs _]]]]. destruct cur; discriminate. }
      destruct IH as [Hfull [Hov [Hde [ext Hext]]]].
      cbv zeta. split; [exact Hfull|]. split; [exact Hov|]. split.
      * rewrite Hde, <- app_assoc. reflexivity.
      * exists (c :: ext). rewrite Hext, <- app_assoc. reflexivity.
Qed.

End WindowsOfSingletons.

Lemma map_page_content_chunks (meta : list (str * str)) (texts : list str) :
  map page_content
    (map (fun chunk => {| page_content := chunk; metadata := meta |}) texts)
  = texts.
Proof.
  rewrite map_map. cbn [page_content]. apply map_id.
Qed.

(** C3, as the code has it.  A document without white space is cut into
    sliding windows: every chunk but the last has exactly 1000 characters,
    neighbours share exactly 200 characters, and the chunks with the overlaps
    taken off give the text back. *)
Theorem split_documents_windows : forall d : Document,
  no_whitespace (page_content d) = true ->
  exists chunks,
    split_documents [d] = Ok chunks /\
    all_but_last_full 1000 (map page_content chunks) /\
    consecutive_overlap 200 (map page_content chunks) /\
    deoverlap 200 (map page_content chunks) = page_content d.
Proof.
  intros d H.
  assert (Hsplit : split_text CHUNK_SIZE CHUNK_OVERLAP (page_content d)
                   = Ok (windows 1000 200 [] (page_content d))).
  { apply (@split_text_no_whitespace 1000 200); [lia | lia | exact H]. }
  exists (map (fun chunk => {| page_content := chunk; metadata := metadata d |})
            (windows 1000 200 [] (page_content d))).
  split.
  - unfold split_documents, splitter_split_documents.
    cbn [rmap rbind]. rewrite Hsplit. cbn [rbind concat].
    rewrite app_nil_r. reflexivity.
  - rewrite map_page_content_chunks.
    destruct (@windows_spec 1000 200 ltac:(lia) ltac:(lia) (page_content d) []
                ltac:(cbn [length]; lia)) as [Hfull [Hov [Hde _]]].
    auto.
Qed.

Lemma split_documents_windows_witness : chunking_claim DemoChunks.one_word.
Proof.
  apply (split_documents_windows DemoChunks.one_word). vm_compute. reflexivity.
Defined.

Example split_documents_one_word :
  split_documents [DemoChunks.one_word]
  = Ok [ {| page_content := repeat 97%N 900 ++ repeat 48%N 100;
            metadata := [] |};
         {| page_content := repeat 97%N 100 ++ repeat 48%N 600;
            metadata := [] |} ].
Proof. vm_compute. reflexivity. Qed.

(** ** The small world meets the stated library behaviour *)

Lemma split_from_incl (sep : str) (text : str) : forall skip cur p,
  In p (split_from sep skip cur text) -> incl p (rev cur ++ text).
Proof.
  induction text as [|c rest IH]; intros skip cur p Hin.
  - cbn [split_from] in Hin. destruct Hin as [<- | []].
    rewrite app_nil_r. apply incl_refl.
  - cbn [split_from] in Hin. destruct skip as [|k].
    + destruct (startswith (c :: rest) sep).
      * destruct Hin as [<- | Hin].
        -- apply incl_appl. apply incl_refl.
        -- apply IH in Hin. cbn [rev app] in Hin.
           apply incl_appr. apply incl_tl. exact Hin.
      * apply IH in Hin. cbn [rev] in Hin. rewrite <- app_assoc in Hin.
        exact Hin.
    + apply IH in Hin. intros x Hx. apply Hin in Hx.
      apply in_app_or in Hx. apply in_or_app.
      destruct Hx as [Hx | Hx]; [left; exact Hx | right; right; exact Hx].
Qed.

Lemma demo_tokens_from_text : tokens_from_text Demo.unicode Demo.nltk.
Proof.
  intros t tokens _ Htok w Hw. cbn in Htok. injection Htok as <-.
  apply filter_In in Hw. destruct Hw as [Hw _].
  apply (@split_from_incl (lit " ") t 0%nat [] w). exact Hw.
Qed.

Lemma ascii_lower_idempotent (c : char) :
  Demo.ascii_lower (Demo.ascii_lower c) = Demo.ascii_lower c.
Proof.
  unfold Demo.ascii_lower.
  destruct (N.leb_spec 65 c); destruct (N.leb_spec c 90); cbn [andb];
    try (destruct (N.leb_spec 65 c); destruct (N.leb_spec c 90);
         cbn [andb]; (reflexivity || lia)).
  destruct (N.leb_spec 65 (c + 32)); destruct (N.leb_spec (c + 32) 90);
    cbn [andb]; (reflexivity || lia).
Qed.

Lemma demo_lower_stable : lower_stable Demo.unicode.
Proof.
  intros t w Hincl. cbn [str_lower Demo.unicode] in *.
  induction w as [|c w IH]; [reflexivity|].
  cbn [map]. f_equal.
  - assert (Hc : In c (map Demo.ascii_lower t))
      by (apply Hincl; left; reflexivity).
    apply in_map_iff in Hc. destruct Hc as [c' [<- _]].
    apply ascii_lower_idempotent.
  - apply IH. intros x Hx. apply Hincl. right; exact Hx.
Qed.

Lemma preprocess_text_spec_witness :
  let tokens := [lit "roadspeed"; lit "limit"; lit "50"] in
  Forall (fun w => (1 < length w)%nat
                   /\ ~ In w [lit "the"; lit "is"; lit "of"]) tokens
  /\ Forall (fun w => str_lower Demo.unicode w = w) tokens.
Proof.
  destruct (proj1 (proj2 (preprocess_text_spec Demo.unicode Demo.nltk
                            (lit "The Road-speed limit, is 5 A 50!")))
              [lit "roadspeed"; lit "limit"; lit "50"] eq_refl)
    as [raw [stop_words [_ [Hsw [_ [Hkeep Hlow]]]]]].
  injection Hsw as <-.
  split; [exact Hkeep|].
  exact (Hlow demo_lower_stable demo_tokens_from_text).
Defined.

(** * Further properties *)

(** ** Stripping *)

Lemma lstrip_length (s : str) : (length (lstrip s) <= length s)%nat.
Proof.
  induction s as [|c r IH]; cbn [lstrip length]; [lia|].
  destruct (isspace c); cbn [length]; lia.
Qed.

Lemma rstrip_length (s : str) : (length (rstrip s) <= length s)%nat.
Proof.
  unfold rstrip. rewrite length_rev.
  etransitivity; [apply lstrip_length|]. rewrite length_rev. lia.
Qed.

Lemma strip_length (s : str) : (length (strip s) <= length s)%nat.
Proof.
  unfold strip. etransitivity; [apply rstrip_length | apply lstrip_length].
Qed.

Lemma lstrip_idempotent (s : str) : lstrip (lstrip s) = lstrip s.
Proof.
  induction s as [|c r IH]; [reflexivity|]. cbn [lstrip].
  destruct (isspace c) eqn:E; [exact IH|]. cbn [lstrip]. rewrite E. reflexivity.
Qed.

Lemma rstrip_idempotent (s : str) : rstrip (rstrip s) = rstrip s.
Proof.
  unfold rstrip. rewrite rev_involutive, lstrip_idempotent. reflexivity.
Qed.

Lemma lstrip_fixed_head (t : str) :
  lstrip t = t -> match t with [] => True | c :: _ => isspace c = false end.
Proof.
  destruct t as [|c r]; [trivial|]. cbn [lstrip].
  destruct (isspace c); [|reflexivity].
  intros H. pose proof (lstrip_length r) as Hl. rewrite H in Hl.
  cbn [length] in Hl. lia.
Qed.

Lemma lstrip_rstrip (t : str) : lstrip t = t -> lstrip (rstrip t) = rstrip t.
Proof.
  intros Ht. apply lstrip_fixed_head in Ht.
  destruct (rstrip_split t) as [w [Hw HF]].
  apply lstrip_head.
  destruct (rstrip t) as [|c' r'] eqn:E; [exact I|].
  destruct t as [|c r]; [discriminate|].
  cbn [app] in Hw. injection Hw as -> _. exact Ht.
Qed.

(** [strip] is idempotent. *)
Lemma strip_idempotent (s : str) : strip (strip s) = strip s.
Proof.
  change (rstrip (lstrip (rstrip (lstrip s))) = rstrip (lstrip s)).
  rewrite (@lstrip_rstrip (lstrip s) (lstrip_idempotent s)).
  apply rstrip_idempotent.
Qed.

(** ** The chunker on every document *)

Lemma total_len_app (a b : list str) :
  total_len (a ++ b) = (total_len a + total_len b)%Z.
Proof.
  induction a as [|x a IH]; cbn [app total_len]; [lia|].
  rewrite IH. lia.
Qed.

Lemma total_len_nonneg (a : list str) : (0 <= total_len a)%Z.
Proof.
  induction a as [|x a IH]; cbn [total_len]; [lia|].
  unfold len. lia.
Qed.

Lemma len_join_empty (pieces : list str) :
  len (join [] pieces) = total_len pieces.
Proof.
  induction pieces as [|p rest IH]; [reflexivity|].
  destruct rest as [|q rest'].
  - cbn [join total_len]. lia.
  - change (join [] (p :: q :: rest')) with (p ++ [] ++ join [] (q :: rest')).
    cbn [app]. unfold len in *. rewrite length_app, Nat2Z.inj_add, IH.
    reflexivity.
Qed.

Section ChunkerInvariants.

Variable cs : Z.   (* chunk_size *)
Variable co : Z.   (* chunk_overlap *)
Hypothesis size_gt_1 : (1 < cs)%Z.
Hypothesis overlap_nonneg : (0 <= co)%Z.

Lemma join_docs_well_formed (current : list str) (doc : str) :
  (total_len current <= cs)%Z ->
  _join_docs current [] = Some doc -> well_formed_chunk cs doc.
Proof.
  intros Htot. unfold _join_docs.
  destruct (strip (join [] current)) as [|c r] eqn:E; [discriminate|].
  cbn [is_empty]. intros H. injection H as <-.
  split; [|split].
  - rewrite <- E. pose proof (strip_length (join [] current)) as Hl.
    pose proof (len_join_empty current) as Hj. unfold len in *. lia.
  - discriminate.
  - rewrite <- E. apply strip_idempotent.
Qed.

(** The [while] loop never runs past the end of [current_doc] as long as
    [total] is the number of characters [current_doc] holds. *)
Lemma pop_front_ok (_len : Z) (current : list str) :
  exists kept,
    pop_front cs co _len 0 current (total_len current)
    = Ok (kept, total_len kept)
    /\ (total_len kept <= co)%Z
    /\ (total_len kept + _len <= cs \/ total_len kept <= 0)%Z.
Proof.
  induction current as [|d0 rest IH].
  - exists []. cbn [pop_front total_len length].
    rewrite !Z.gtb_ltb.
    destruct (Z.ltb_spec co 0); [lia|]. cbn [orb].
    rewrite (proj2 (Z.ltb_ge 0 0)) by lia. rewrite andb_false_r.
    repeat split; [exact overlap_nonneg | right; lia].
  - cbn [pop_front]. rewrite !if_same_0.
    destruct ((total_len (d0 :: rest) >? co)
              || (total_len (d0 :: rest) + _len + 0 >? cs)
                 && (total_len (d0 :: rest) >? 0))%Z eqn:More.
    + replace (total_len (d0 :: rest) - (len d0 + 0))%Z with (total_len rest)
        by (cbn [total_len]; lia).
      exact IH.
    + exists (d0 :: rest). split; [reflexivity|].
      apply orb_false_iff in More. destruct More as [M1 M2].
      rewrite Z.gtb_ltb in M1. apply Z.ltb_ge in M1.
      apply andb_false_iff in M2. rewrite !Z.gtb_ltb in M2.
      split; [exact M1|].
      destruct M2 as [M2|M2]; apply Z.ltb_ge in M2; [left|right]; lia.
Qed.

Lemma merge_loop_ok (splits : list str) : forall docs current,
  (total_len current <= cs)%Z ->
  Forall (fun s => (len s < cs)%Z) splits ->
  Forall (well_formed_chunk cs) docs ->
  exists out,
    merge_loop cs co [] splits docs current (total_len current) = Ok out
    /\ Forall (well_formed_chunk cs) out.
Proof.
  induction splits as [|d later IH]; intros docs current Htot Hsplits Hdocs.
  - cbn [merge_loop].
    destruct (_join_docs current []) as [doc|] eqn:E.
    + exists (docs ++ [doc]). split; [reflexivity|].
      apply Forall_app. split; [exact Hdocs|].
      constructor; [|constructor]. eapply join_docs_well_formed; eassumption.
    + exists docs. split; [reflexivity | exact Hdocs].
  - inversion Hsplits as [|? ? Hd Hlater]; subst.
    cbn [merge_loop]. change (len []) with 0%Z. rewrite !if_same_0.
    destruct ((total_len current + len d + 0 >? cs)%Z
              && (0 <? length current)%nat) eqn:Cond.
    + destruct (pop_front_ok (len d) current)
        as [kept [Hpop [Hk1 Hk2]]].
      rewrite Hpop. cbn [rbind fst snd]. rewrite ?if_same_0.
      replace (total_len kept + (len d + 0))%Z with (total_len (kept ++ [d]))
        by (rewrite total_len_app; cbn [total_len]; lia).
      apply IH.
      * rewrite total_len_app. cbn [total_len].
        pose proof (total_len_nonneg kept). lia.
      * exact Hlater.
      * destruct (_join_docs current []) as [doc|] eqn:E; [|exact Hdocs].
        apply Forall_app. split; [exact Hdocs|].
        constructor; [|constructor]. eapply join_docs_well_formed; eassumption.
    + cbn [rbind]. rewrite ?if_same_0.
      replace (total_len current + (len d + 0))%Z
        with (total_len (current ++ [d]))
        by (rewrite total_len_app; cbn [total_len]; lia).
      apply IH.
      * rewrite total_len_app. cbn [total_len].
        apply andb_false_iff in Cond. destruct Cond as [C|C].
        -- rewrite Z.gtb_ltb in C. apply Z.ltb_ge in C. lia.
        -- apply Nat.ltb_ge in C. destruct current; [|cbn [length] in C; lia].
           cbn [total_len]. lia.
      * exact Hlater.
      * exact Hdocs.
Qed.

Lemma flush_good_ok (good final : list str) :
  Forall (fun s => (len s < cs)%Z) good ->
  Forall (well_formed_chunk cs) final ->
  exists out,
    flush_good cs co good final = Ok out /\ Forall (well_formed_chunk cs) out.
Proof.
  intros Hgood Hfinal. unfold flush_good.
  destruct (is_empty good); [exists final; auto|].
  unfold _merge_splits.
  destruct (@merge_loop_ok good [] []) as [merged [Hm HF]];
    [cbn; lia | exact Hgood | constructor |].
  change 0%Z with (total_len []) at 1. rewrite Hm. cbn [rbind].
  exists (final ++ merged). split; [reflexivity|].
  apply Forall_app. auto.
Qed.

Lemma split_loop_ok (deeper : option (str -> result (list str)))
  (splits : list str) : forall good final,
  match deeper with
  | None => Forall (fun s => (len s < cs)%Z) splits
  | Some f => forall s, exists o, f s = Ok o /\ Forall (well_formed_chunk cs) o
  end ->
  Forall (fun s => (len s < cs)%Z) good ->
  Forall (well_formed_chunk cs) final ->
  exists out,
    split_loop cs co deeper splits good final = Ok out
    /\ Forall (well_formed_chunk cs) out.
Proof.
  induction splits as [|s later IH]; intros good final Hdeep Hgood Hfinal.
  - cbn [split_loop]. apply flush_good_ok; assumption.
  - cbn [split_loop].
    assert (Hdeep' :
      match deeper with
      | None => Forall (fun s => (len s < cs)%Z) later
      | Some f => forall s, exists o, f s = Ok o
                                      /\ Forall (well_formed_chunk cs) o
      end).
    { destruct deeper; [exact Hdeep|]. inversion Hdeep; assumption. }
    destruct (Z.ltb_spec (len s) cs) as [Hlt|Hge].
    + apply IH; [exact Hdeep' | | exact Hfinal].
      apply Forall_app. split; [exact Hgood|]. constructor; [exact Hlt|constructor].
    + destruct (flush_good_ok Hgood Hfinal) as [final1 [Hf HF1]].
      rewrite Hf. cbn [rbind].
      destruct deeper as [f|].
      * destruct (Hdeep s) as [o [Ho HFo]]. rewrite Ho. cbn [rbind].
        apply IH; [exact Hdeep' | constructor |].
        apply Forall_app. auto.
      * inversion Hdeep; subst. lia.
Qed.

Lemma characters_short (text : str) :
  Forall (fun s => (len s < cs)%Z) (_split_text_with_regex text []).
Proof.
  unfold _split_text_with_regex. rewrite characters_not_empty.
  apply Forall_forall. intros s Hs. apply in_map_iff in Hs.
  destruct Hs as [c [<- _]]. unfold len. cbn [length]. lia.
Qed.

Lemma split_text_from_ok (last_separator : str) (separators : list str) :
  In [] separators ->
  forall text,
  exists out,
    _split_text_from cs co last_separator separators text = Ok out
    /\ Forall (well_formed_chunk cs) out.
Proof.
  induction separators as [|_s rest IH]; intros Hin text; [destruct Hin|].
  cbn [_split_text_from].
  destruct _s as [|c0 s0].
  - cbn [is_empty]. apply split_loop_ok; [apply characters_short | constructor | constructor].
  - cbn [is_empty].
    destruct Hin as [Habs|Hin]; [discriminate|].
    destruct (contains text (c0 :: s0)).
    + destruct rest as [|r0 rest']; [destruct Hin|]. cbn [is_empty].
      apply split_loop_ok; [|constructor|constructor].
      intros s. apply IH. exact Hin.
    + apply IH. exact Hin.
Qed.

Lemma split_text_ok (text : str) :
  exists out,
    split_text cs co text = Ok out /\ Forall (well_formed_chunk cs) out.
Proof.
  unfold split_text, _split_text, default_separators.
  apply split_text_from_ok. right; right; right; left; reflexivity.
Qed.

Lemma splitter_split_documents_ok (documents : list Document) :
  exists chunks,
    splitter_split_documents cs co documents = Ok chunks
    /\ Forall (fun c => well_formed_chunk cs (page_content c)) chunks.
Proof.
  unfold splitter_split_documents.
  induction documents as [|d rest IH].
  - exists []. split; [reflexivity | constructor].
  - cbn [rmap]. destruct (split_text_ok (page_content d)) as [out [Ho HF]].
    rewrite Ho. cbn [rbind].
    destruct IH as [chunks [Hc HFc]].
    destruct (rmap _ rest) as [per_doc|e]; [|discriminate].
    cbn [rbind] in Hc |- *. injection Hc as <-.
    eexists. split; [reflexivity|]. cbn [concat].
    apply Forall_app. split; [|exact HFc].
    apply Forall_forall. intros c Hc. apply in_map_iff in Hc.
    destruct Hc as [t [<- Ht]]. cbn [page_content].
    rewrite Forall_forall in HF. apply HF. exact Ht.
Qed.

End ChunkerInvariants.

(** X1. Whatever the documents, [split_documents] returns (the index error
    of the merging loop cannot occur), and every chunk has at most 1000
    characters, is not empty and has no white space at either end. *)
Theorem split_documents_total_and_bounded : forall documents : list Document,
  exists chunks,
    split_documents documents = Ok chunks /\
    Forall (fun c => (length (page_content c) <= 1000)%nat
                     /\ page_content c <> []
                     /\ strip (page_content c) = page_content c) chunks.
Proof.
  intros documents.
  destruct (@splitter_split_documents_ok CHUNK_SIZE CHUNK_OVERLAP
              ltac:(unfold CHUNK_SIZE; lia) ltac:(unfold CHUNK_OVERLAP; lia)
              documents) as [chunks [Hc HF]].
  exists chunks. split; [exact Hc|].
  eapply Forall_impl; [|exact HF].
  intros c [H1 [H2 H3]]. split; [|split; assumption].
  unfold len, CHUNK_SIZE in H1. lia.
Qed.

Lemma rmap_app {A B} (f : A -> result B) (a b : list A) :
  rmap f (a ++ b)
  = (xa <~ rmap f a ;; xb <~ rmap f b ;; Ok (xa ++ xb)).
Proof.
  induction a as [|x a IH]; cbn [app rmap rbind].
  - destruct (rmap f b); reflexivity.
  - destruct (f x) as [y|e]; [|reflexivity]. cbn [rbind]. rewrite IH.
    destruct (rmap f a) as [ya|e]; [|reflexivity]. cbn [rbind].
    destruct (rmap f b); reflexivity.
Qed.

(** X2. Chunks never cross a document boundary: the chunks of a list of
    documents are the chunks of each document, in document order, and each
    chunk carries the metadata of its document.  A document with empty text
    gives no chunk. *)
Theorem split_documents_by_document :
  (forall documents : list Document,
      exists groups : list (list Document),
        split_documents documents = Ok (concat groups) /\
        Forall2 (fun d g => split_documents [d] = Ok g /\
                            Forall (fun c => metadata c = metadata d) g)
                documents groups)
  /\
  (forall a b : list Document,
      split_documents (a ++ b)
      = (ca <~ split_documents a ;; cb <~ split_documents b ;; Ok (ca ++ cb)))
  /\
  (forall meta, split_documents [{| page_content := []; metadata := meta |}]
                = Ok []).
Proof.
  split; [|split].
  - induction documents as [|d rest IH].
    + exists []. split; [reflexivity | constructor].
    + destruct IH as [groups [Hrest HF]].
      destruct (@split_text_ok CHUNK_SIZE CHUNK_OVERLAP
                  ltac:(unfold CHUNK_SIZE; lia)
                  ltac:(unfold CHUNK_OVERLAP; lia) (page_content d))
        as [out [Hout _]].
      set (g := map (fun chunk => {| page_content := chunk;
                                     metadata := metadata d |}) out).
      assert (Hd : split_documents [d] = Ok g).
      { unfold split_documents, splitter_split_documents. cbn [rmap rbind].
        rewrite Hout. cbn [rbind concat]. rewrite app_nil_r. reflexivity. }
      exists (g :: groups). split.
      * unfold split_documents, splitter_split_documents in *.
        cbn [rmap rbind]. rewrite Hout. cbn [rbind].
        destruct (rmap _ rest) as [per_doc|e]; [|discriminate].
        cbn [rbind] in Hrest |- *. injection Hrest as Hrest.
        cbn [concat]. fold g. rewrite Hrest. reflexivity.
      * constructor; [|exact HF]. split; [exact Hd|].
        apply Forall_forall. intros c Hc. apply in_map_iff in Hc.
        destruct Hc as [t [<- _]]. reflexivity.
  - intros a b. unfold split_documents, splitter_split_documents.
    rewrite rmap_app.
    destruct (rmap _ a) as [xa|e]; [|reflexivity]. cbn [rbind].
    destruct (rmap _ b) as [xb|e]; [|reflexivity]. cbn [rbind].
    rewrite concat_app. reflexivity.
  - intros meta. reflexivity.
Qed.

(** ** More on the query interface *)

(** X3. A query calls the remote services at most twice and in a fixed
    order: nothing; or the retriever alone, with the question as asked; or
    the retriever and then the generation model, whose prompt is built from
    the formatted context of the retrieved chunks and the question.  The
    generation model is never called unless retrieval and formatting
    returned. *)
Theorem query_trace_shape :
  forall U nltk console (self : RAGEngine) (q : str),
  let tr := fst (query U nltk console self q) in
  tr = []
  \/ tr = [EvRetrieve q]
  \/ exists r docs context,
      retriever self = Some r /\
      invoke r q = Ok docs /\
      _format_docs_with_topics U nltk self docs = Ok context /\
      tr = [EvRetrieve q; EvGenerate (comprehensive_prompt context q)].
Proof.
  intros U nltk console self q tr. subst tr.
  destruct (truthy (vector_store self)) eqn:Ht.
  - destruct (console_print console (processing_line q)) as [[]|e0] eqn:Hp.
    2:{ rewrite (query_print_raises U nltk console self q Ht Hp).
        left. reflexivity. }
    pose proof (query_body_cases U nltk console self q Ht Hp) as H.
    unfold retriever_invoke in H.
    destruct (retriever self) as [r|] eqn:Hr.
    + unfold call in H. destruct (invoke r q) as [docs|e] eqn:Hinv.
      * destruct (_format_docs_with_topics U nltk self docs)
          as [context|e] eqn:Hfmt.
        -- cbv zeta in H. right. right. exists r, docs, context.
           repeat split; try reflexivity; try assumption.
           destruct (llm_invoke (llm self) (comprehensive_prompt context q));
             rewrite H; reflexivity.
        -- rewrite H. right. left. reflexivity.
      * rewrite H. right. left. reflexivity.
    + unfold lift in H. rewrite H. left. reflexivity.
  - unfold query. rewrite Ht. left. reflexivity.
Qed.

(** ** More on the post-processing *)

(** X4. The answer that leaves the post-processing has no white space at
    either end. *)
Theorem postprocess_is_stripped : forall content : str,
  strip (postprocess content) = postprocess content.
Proof.
  intros content. unfold postprocess.
  destruct (startswith (strip content) REFUSAL); [|apply strip_idempotent].
  destruct ((1 <? length (split (strip content) [NL]))%nat
            && startswith (strip (nth 1 (split (strip content) [NL]) []))
                 HOWEVER);
    apply strip_idempotent.
Qed.

Lemma startswith_nil (s : str) : startswith s [] = true.
Proof. destruct s; reflexivity. Qed.

Lemma split_from_single_absent (c : char) (l : str) : forall cur,
  ~ In c l -> split_from [c] 0 cur l = [rev cur ++ l].
Proof.
  induction l as [|x r IH]; intros cur Hn.
  - cbn [split_from]. rewrite app_nil_r. reflexivity.
  - cbn [split_from startswith].
    destruct (N.eqb_spec c x) as [->|Hne].
    + exfalso. apply Hn. left; reflexivity.
    + cbn [andb]. rewrite IH by (intros H; apply Hn; right; exact H).
      cbn [rev]. rewrite <- app_assoc. reflexivity.
Qed.

Lemma split_from_single_cut (c : char) (l1 rest : str) : forall cur,
  ~ In c l1 ->
  split_from [c] 0 cur (l1 ++ c :: rest)
  = (rev cur ++ l1) :: split_from [c] 0 [] rest.
Proof.
  induction l1 as [|x r IH]; intros cur Hn.
  - cbn [app split_from startswith]. rewrite N.eqb_refl, startswith_nil.
    cbn [andb length Nat.sub]. rewrite app_nil_r. reflexivity.
  - cbn [app split_from startswith].
    destruct (N.eqb_spec c x) as [->|Hne].
    + exfalso. apply Hn. left; reflexivity.
    + cbn [andb]. rewrite IH by (intros H; apply Hn; right; exact H).
      cbn [rev]. rewrite <- app_assoc. reflexivity.
Qed.

Lemma split_from_not_nil (sep text : str) : forall skip cur,
  split_from sep skip cur text <> [].
Proof.
  induction text as [|x r IH]; intros skip cur; cbn [split_from];
    [discriminate|].
  destruct skip; [|apply IH].
  destruct (startswith (x :: r) sep); [discriminate | apply IH].
Qed.

(** [sep.join(text.split(sep)) == text] for a one-character separator. *)
Lemma join_split_single (c : char) (text : str) : forall cur,
  join [c] (split_from [c] 0 cur text) = rev cur ++ text.
Proof.
  induction text as [|x r IH]; intros cur.
  - cbn [split_from join]. rewrite app_nil_r. reflexivity.
  - cbn [split_from startswith].
    destruct (N.eqb_spec c x) as [->|Hne];
      rewrite ?startswith_nil; cbn [andb length Nat.sub].
    + pose proof (IH []) as H0. cbn [rev app] in H0.
      destruct (split_from [x] 0 [] r) as [|p ps] eqn:E;
        [exfalso; exact (split_from_not_nil _ _ _ _ E)|].
      change (join [x] (rev cur :: p :: ps))
        with (rev cur ++ [x] ++ join [x] (p :: ps)).
      rewrite H0. reflexivity.
    + rewrite IH. cbn [rev]. rewrite <- app_assoc. reflexivity.
Qed.

(** X5. The hedge removal read on the text.  Let the stripped answer begin
    with the refusal phrase and have a first line [l1] and a second line
    [l2] that begins, after leading white space, with "However,".  If more
    text follows the second line, that text is returned, stripped; if the
    answer ends with the second line, the empty string is returned. *)
Theorem postprocess_hedged_text : forall (content l1 l2 : str),
  ~ In NL l1 -> ~ In NL l2 ->
  startswith (strip content) REFUSAL = true ->
  startswith (lstrip l2) HOWEVER = true ->
  (strip content = l1 ++ NL :: l2 -> postprocess content = [])
  /\
  (forall rest, strip content = l1 ++ NL :: l2 ++ NL :: rest ->
                postprocess content = strip rest).
Proof.
  intros content l1 l2 H1 H2 Href Hhow.
  assert (Hhow' : startswith (strip l2) HOWEVER = true)
    by (rewrite startswith_strip_lstrip by exact HOWEVER_no_space; exact Hhow).
  split.
  - intros Hshape. unfold postprocess. rewrite Href. unfold split.
    rewrite Hshape. rewrite (@split_from_single_cut NL l1 _ [] H1).
    rewrite (@split_from_single_absent NL l2 [] H2).
    cbn [rev app length nth skipn Nat.ltb Nat.leb andb join].
    rewrite Hhow'. reflexivity.
  - intros rest Hshape. unfold postprocess. rewrite Href. unfold split.
    rewrite Hshape. rewrite (@split_from_single_cut NL l1 _ [] H1).
    rewrite (@split_from_single_cut NL l2 _ [] H2).
    cbn [rev app nth skipn length Nat.ltb Nat.leb andb]. rewrite Hhow'.
    rewrite join_split_single. reflexivity.
Qed.

Lemma postprocess_hedged_text_witness :
  postprocess (lit "The provided context does not contain the answer."
               ++ [NL] ++ lit "  However, in general:  ")
  = [] /\
  postprocess (lit "The provided context does not contain the answer."
               ++ [NL] ++ lit "  However, in general:"
               ++ [NL] ++ [NL] ++ lit "Use paint." ++ [NL] ++ lit "Then signs.")
  = lit "Use paint." ++ [NL] ++ lit "Then signs.".
Proof.
  split.
  - apply (@postprocess_hedged_text
             (lit "The provided context does not contain the answer."
              ++ [NL] ++ lit "  However, in general:  ")
             (lit "The provided context does not contain the answer.")
             (lit "  However, in general:"));
      [vm_compute; intuition discriminate
      | vm_compute; intuition discriminate
      | reflexivity | reflexivity | reflexivity].
  - apply (proj2 (@postprocess_hedged_text
             (lit "The provided context does not contain the answer."
              ++ [NL] ++ lit "  However, in general:"
              ++ [NL] ++ [NL] ++ lit "Use paint." ++ [NL] ++ lit "Then signs.")
             (lit "The provided context does not contain the answer.")
             (lit "  However, in general:")
             ltac:(vm_compute; intuition discriminate)
             ltac:(vm_compute; intuition discriminate)
             eq_refl eq_refl)
           ([NL] ++ lit "Use paint." ++ [NL] ++ lit "Then signs.")).
    reflexivity.
Defined.

(** ** More on topic enrichment *)

Lemma rmap_Ok_Forall2 {A B} (f : A -> result B) (l : list A) : forall out,
  rmap f l = Ok out -> Forall2 (fun a b => f a = Ok b) l out.
Proof.
  induction l as [|a l IH]; intros out H; cbn [rmap] in H.
  - injection H as <-. constructor.
  - apply rbind_Ok in H. destruct H as [b [Hb H]].
    apply rbind_Ok in H. destruct H as [bs [Hbs H]].
    injection H as <-. constructor; [exact Hb | apply IH; exact Hbs].
Qed.

Lemma Ok_inj {A} (a b : A) : Ok a = Ok b -> a = b.
Proof. intros H. injection H as H. exact H. Qed.

Lemma app_prefix4 (a l b c : str) :
  a ++ l ++ b ++ c = (a ++ l ++ b) ++ c.
Proof. rewrite <- !app_assoc. reflexivity. Qed.

Lemma format_doc_keeps_text U nltk lda (doc : Document) (out : str) :
  format_doc U nltk lda doc = Ok out ->
  exists prefix,
    out = prefix ++ page_content doc /\
    (prefix = [] \/
     exists label, prefix = lit "[Topic Summary: " ++ label ++ lit "]" ++ [NL]).
Proof.
  unfold format_doc. intros H.
  destruct lda as [m|]; [|apply Ok_inj in H; subst out; exists []; auto].
  apply rbind_Ok in H. destruct H as [tokens [_ H]].
  apply rbind_Ok in H. destruct H as [b [_ H]].
  apply rbind_Ok in H. destruct H as [dist [_ H]].
  destruct dist as [|first others];
    [apply Ok_inj in H; subst out; exists []; auto|].
  apply rbind_Ok in H. destruct H as [words [_ H]].
  apply Ok_inj in H. subst out.
  set (label := lit "Topic " ++ str_of_int (fst (max_from first others) + 1)
                ++ lit ": " ++ join (lit ", ") (map fst words)).
  exists (lit "[Topic Summary: " ++ label ++ lit "]" ++ [NL]). split.
  - exact (app_prefix4 (lit "[Topic Summary: ") label (lit "]" ++ [NL])
             (page_content doc)).
  - right. exists label. reflexivity.
Qed.

(** X6. Enrichment only puts a label in front of a chunk: in the context
    string every chunk's text is present unchanged, in retrieval order,
    separated by blank lines, each preceded by nothing or by one
    "[Topic Summary: ...]" line.  With no topic model the context is what
    [_format_docs] gives. *)
Theorem format_docs_keeps_texts :
  forall U nltk (self : RAGEngine) (docs : list Document) (context : str),
    _format_docs_with_topics U nltk self docs = Ok context ->
    exists prefixes : list str,
      Forall2 (fun p d =>
                 p = [] \/
                 exists label,
                   p = lit "[Topic Summary: " ++ label ++ lit "]" ++ [NL])
              prefixes docs /\
      context
      = join [NL; NL]
          (map (fun pd => fst pd ++ page_content (snd pd))
               (combine prefixes docs)) /\
      (lda_model self = None -> context = _format_docs docs).
Proof.
  intros U nltk self docs context H. unfold _format_docs_with_topics in H.
  apply rbind_Ok in H. destruct H as [formatted [Hf H]]. injection H as <-.
  assert (Hnone : lda_model self = None ->
                  join [NL; NL] formatted = _format_docs docs).
  { intros Hn. pose proof (@format_docs_without_model U nltk self docs Hn) as E.
    unfold _format_docs_with_topics in E. rewrite Hf in E. cbn [rbind] in E.
    injection E as E. exact E. }
  apply rmap_Ok_Forall2 in Hf.
  assert (Hex : exists prefixes,
             Forall2 (fun p d =>
                        p = [] \/
                        exists label,
                          p = lit "[Topic Summary: " ++ label ++ lit "]" ++ [NL])
                     prefixes docs /\
             formatted = map (fun pd => fst pd ++ page_content (snd pd))
                             (combine prefixes docs)).
  { clear Hnone. induction Hf as [|d out docs' outs Hd _ IH].
    - exists []. split; [constructor | reflexivity].
    - destruct IH as [ps [HF ->]].
      destruct (format_doc_keeps_text _ _ _ _ Hd) as [p [-> Hp]].
      exists (p :: ps). split; [constructor; assumption | reflexivity]. }
  destruct Hex as [prefixes [HF ->]].
  exists prefixes. split; [exact HF|]. split; [reflexivity | exact Hnone].
Qed.

Lemma format_docs_keeps_texts_witness :
  exists prefixes : list str,
    Forall2 (fun p d =>
               p = [] \/
               exists label,
                 p = lit "[Topic Summary: " ++ label ++ lit "]" ++ [NL])
            prefixes [Demo.chunk; Demo.plain_chunk] /\
    lit "[Topic Summary: Topic 2: road, speed, limit, sign, zone]" ++ [NL]
    ++ lit "The Road speed limit is 50" ++ [NL; NL] ++ lit "Zebra crossings"
    = join [NL; NL]
        (map (fun pd => fst pd ++ page_content (snd pd))
             (combine prefixes [Demo.chunk; Demo.plain_chunk])) /\
    (lda_model Demo.engine = None ->
     lit "[Topic Summary: Topic 2: road, speed, limit, sign, zone]" ++ [NL]
     ++ lit "The Road speed limit is 50" ++ [NL; NL] ++ lit "Zebra crossings"
     = _format_docs [Demo.chunk; Demo.plain_chunk]).
Proof.
  apply (@format_docs_keeps_texts Demo.unicode Demo.nltk Demo.engine
           [Demo.chunk; Demo.plain_chunk]).
  reflexivity.
Defined.

(** ** Loading the documents *)

Lemma load_loop_spec (Dictionary CountVectorizer : Type)
  (host : Host Dictionary CountVectorizer) (dir : str) (names : list str) :
  forall documents,
    Forall (reports_ok host dir)
           (filter (fun n => endswith n (lit ".pdf")) names) ->
    load_loop host dir names documents
    = (map (fun n => StLoadPdf (path_join dir n))
           (filter (fun n => endswith n (lit ".pdf")) names),
       Ok (documents
           ++ flat_map (fun n => match pdf_load host (path_join dir n) with
                                 | Ok pages => pages
                                 | Raise _ => []
                                 end)
                       (filter (fun n => endswith n (lit ".pdf")) names))).
Proof.
  induction names as [|n later IH]; intros documents Hrep.
  - cbn [load_loop filter map flat_map]. rewrite app_nil_r. reflexivity.
  - cbn [load_loop filter] in *.
    destruct (endswith n (lit ".pdf")); [|apply IH; exact Hrep].
    inversion Hrep as [|? ? Hn Hlater]; subst.
    cbn [map flat_map]. unfold reports_ok in Hn.
    destruct (pdf_load host (path_join dir n)) as [pages|e].
    + destruct (console_print (stdout host) (lit "Successfully loaded " ++ n))
        as [u|e]; [|rewrite Hn];
        unfold tbind, tcall; rewrite (IH _ Hlater); cbn [app];
        rewrite <- app_assoc; reflexivity.
    + rewrite Hn. unfold tbind, tcall. rewrite (IH _ Hlater). reflexivity.
Qed.

Lemma load_loop_steps (Dictionary CountVectorizer : Type)
  (host : Host Dictionary CountVectorizer) (dir : str) (names : list str) :
  forall documents,
    Forall (fun s => is_load_step s = true)
           (fst (load_loop host dir names documents)).
Proof.
  assert (Hcall : forall p (r : result unit) (k : unit -> Tr (list Document)),
             (forall u, Forall (fun s => is_load_step s = true) (fst (k u))) ->
             Forall (fun s => is_load_step s = true)
                    (fst (tbind (tcall (StLoadPdf p) r) k))).
  { intros p r k Hk. unfold tbind, tcall. destruct r as [u|e].
    - specialize (Hk u). destruct (k u) as [tr' r']. cbn [fst app] in *.
      constructor; [reflexivity | exact Hk].
    - cbn [fst]. repeat constructor. }
  induction names as [|n later IH]; intros documents.
  - constructor.
  - cbn [load_loop].
    destruct (endswith n (lit ".pdf")); [|apply IH].
    destruct (pdf_load host (path_join dir n)) as [pages|e].
    + destruct (console_print (stdout host) (lit "Successfully loaded " ++ n));
        apply Hcall; intros; apply IH.
    + apply Hcall; intros; apply IH.
Qed.

(** X7. [load_documents] lists the directory once and opens exactly the
    files whose name ends in ".pdf" (lower case), in listing order.  As long
    as the console can write the reports, a file that fails to load
    contributes nothing and does not stop the others; the result is the
    pages of the files that load, in order, and an empty listing gives the
    empty list.  A failure of the listing is not caught.  When the console
    cannot write the failure report of a file, the exception leaves the
    handler: [load_documents] raises and the files after it are not opened. *)
Theorem load_documents_skips_bad_files :
  forall (Dictionary CountVectorizer : Type)
         (host : Host Dictionary CountVectorizer) (dir : str),
    console_print (stdout host) (lit "Loading documents from: " ++ dir)
    = Ok tt ->
    (forall names,
        os_listdir host dir = Ok names ->
        let pdfs := filter (fun n => endswith n (lit ".pdf")) names in
        Forall (reports_ok host dir) pdfs ->
        load_documents host dir
        = (StListdir dir :: map (fun n => StLoadPdf (path_join dir n)) pdfs,
           Ok (flat_map (fun n => match pdf_load host (path_join dir n) with
                                  | Ok pages => pages
                                  | Raise _ => []
                                  end) pdfs)))
    /\
    (forall e, os_listdir host dir = Raise e ->
               load_documents host dir = ([StListdir dir], Raise e))
    /\
    (forall before n later e e',
        os_listdir host dir = Ok (before ++ n :: later) ->
        Forall (reports_ok host dir)
               (filter (fun n => endswith n (lit ".pdf")) before) ->
        endswith n (lit ".pdf") = true ->
        pdf_load host (path_join dir n) = Raise e ->
        report_failure host n e = Raise e' ->
        load_documents host dir
        = (StListdir dir
           :: map (fun n => StLoadPdf (path_join dir n))
                  (filter (fun n => endswith n (lit ".pdf")) before)
           ++ [StLoadPdf (path_join dir n)],
           Raise e')).
Proof.
  intros Dictionary CountVectorizer host dir Hbanner. split; [|split].
  - intros names Hls pdfs Hrep. unfold load_documents, tcall, tbind.
    rewrite Hbanner, Hls, (@load_loop_spec _ _ host dir names [] Hrep).
    reflexivity.
  - intros e Hls. unfold load_documents, tcall, tbind. rewrite Hbanner, Hls.
    reflexivity.
  - intros before n later e e' Hls Hrep Hpdf Hload Hreport.
    unfold load_documents, tcall, tbind. rewrite Hbanner, Hls. cbn [app].
    f_equal.
    assert (Hloop : forall documents,
               load_loop host dir (before ++ n :: later) documents
               = (map (fun n => StLoadPdf (path_join dir n))
                      (filter (fun n => endswith n (lit ".pdf")) before)
                  ++ [StLoadPdf (path_join dir n)], Raise e')).
    { clear Hls. induction before as [|b before' IH]; intros documents.
      - cbn [app load_loop filter map]. rewrite Hpdf, Hload.
        unfold tbind, tcall. rewrite Hreport. reflexivity.
      - cbn [app load_loop filter] in *.
        destruct (endswith b (lit ".pdf")); [|apply IH; exact Hrep].
        inversion Hrep as [|? ? Hb Hrest]; subst.
        unfold reports_ok in Hb. cbn [map app].
        destruct (pdf_load host (path_join dir b)) as [pages|eb].
        + destruct (console_print (stdout host)
                      (lit "Successfully loaded " ++ b)) as [u|eb];
            [|rewrite Hb]; unfold tbind, tcall; rewrite (IH Hrest);
            reflexivity.
        + rewrite Hb. unfold tbind, tcall. rewrite (IH Hrest). reflexivity. }
    rewrite Hloop. reflexivity.
Qed.

Lemma load_documents_skips_bad_files_witness :
  load_documents (DemoHost.host None DemoHost.names) (lit "data/raw/")
  = ([StListdir (lit "data/raw/");
      StLoadPdf (lit "data/raw/irc67.pdf");
      StLoadPdf (lit "data/raw/broken.pdf");
      StLoadPdf (lit "data/raw/morth.pdf")],
     Ok [DemoHost.page "Zebra crossings follow IRC:67." "irc67.pdf";
         DemoHost.page "Road speed limit signs." "irc67.pdf";
         DemoHost.page "Speed limit enforcement on the road." "morth.pdf"]).
Proof.
  apply (proj1 (load_documents_skips_bad_files
                  (DemoHost.host None DemoHost.names) (lit "data/raw/")
                  eq_refl)
           DemoHost.names eq_refl).
  repeat constructor.
Defined.

(** A file that fails to load and whose name the console cannot write. *)
Example load_documents_aborted :
  load_documents
    (DemoHost.host None
       [lit "irc67.pdf"; 55296%N :: lit ".pdf"; lit "morth.pdf"])
    (lit "data/raw/")
  = ([StListdir (lit "data/raw/");
      StLoadPdf (lit "data/raw/irc67.pdf");
      StLoadPdf (lit "data/raw/" ++ 55296%N :: lit ".pdf")],
     Raise (Exn ValueError
              (lit "'utf-8' codec can't encode character: surrogates not allowed"))).
Proof. vm_compute. reflexivity. Qed.

(** ** Building the engine *)

Lemma init_cases (rt : Runtime) (vs : option VectorStore) :
  GEMINI_API_KEY rt <> [] ->
  match new_chat rt RagEngineConfig.GENERATION_MODEL (GEMINI_API_KEY rt)
          (1 # 10)%Q,
        runtime_new_embeddings rt RagEngineConfig.EMBEDDING_MODEL
          (Some (GEMINI_API_KEY rt)) with
  | Ok the_llm, Ok embeddings =>
      let store :=
        if truthy vs then vs
        else match Chroma_open rt RagEngineConfig.VECTOR_STORE_PATH embeddings with
             | Ok s => Some s
             | Raise _ => None
             end in
      let lda :=
        match pickle_load rt RagEngineConfig.LDA_MODEL_PATH with
        | Ok m => Some m
        | Raise _ => None
        end in
      snd (__init__ rt vs)
      = if truthy store
        then Ok {| llm := the_llm; vector_store := store;
                   retriever :=
                     match store with
                     | Some s => Some (as_retriever rt s 3)
                     | None => None
                     end;
                   lda_model := lda |}
        else Raise (Exn TypeError
                      (lit "unsupported operand type(s) for |: 'NoneType' and 'method'"))
  | Raise e, _ => __init__ rt vs
                  = ([StNewChat RagEngineConfig.GENERATION_MODEL], Raise e)
  | Ok _, Raise e =>
      __init__ rt vs
      = ([StNewChat RagEngineConfig.GENERATION_MODEL;
          StNewEmbeddings RagEngineConfig.EMBEDDING_MODEL], Raise e)
  end.
Proof.
  intros Hkey. unfold __init__.
  destruct (GEMINI_API_KEY rt) as [|k0 k] eqn:Ek; [congruence|].
  cbn [is_empty].
  destruct (new_chat rt _ _ _) as [the_llm|e]; [|reflexivity].
  destruct (runtime_new_embeddings rt _ _) as [embeddings|e]; [|reflexivity].
  cbv zeta. unfold load_store, load_lda, tcall, tbind, tret.
  destruct (truthy vs) eqn:Hvs.
  - rewrite Hvs.
    destruct vs as [s|]; [|discriminate]. cbn [truthy] in Hvs. rewrite Hvs.
    destruct (pickle_load rt _); reflexivity.
  - destruct (Chroma_open rt _ embeddings) as [s|e].
    + cbn [truthy]. destruct (store_bool s);
        destruct (pickle_load rt _); reflexivity.
    + cbn [truthy]. destruct (pickle_load rt _); reflexivity.
Qed.

(** X8. Without an API key the constructor raises [ValueError] before
    anything is built.  An engine that the constructor returns has a vector
    store that is truthy and a retriever; its topic model is the one read
    from disk, or none when reading failed.  A query on it never takes the
    "not initialized" exit: it prints the question and, when the console
    could write it, starts by calling the retriever and returns a pair; when
    the console could not, the exception of the print reaches the caller. *)
Theorem init_engine_is_ready : forall (rt : Runtime) (vs : option VectorStore),
  (GEMINI_API_KEY rt = [] ->
   __init__ rt vs
   = ([], Raise (Exn ValueError
                   (lit "GEMINI_API_KEY environment variable is not set."))))
  /\
  (forall tr (self : RAGEngine),
      __init__ rt vs = (tr, Ok self) ->
      GEMINI_API_KEY rt <> [] /\
      truthy (vector_store self) = true /\
      (exists r, retriever self = Some r) /\
      lda_model self
      = match pickle_load rt RagEngineConfig.LDA_MODEL_PATH with
        | Ok m => Some m
        | Raise _ => None
        end /\
      forall U nltk console q,
        match console_print console (processing_line q) with
        | Ok _ =>
            exists tr' answer,
              query U nltk console self q = (EvRetrieve q :: tr', Ok answer)
        | Raise e => query U nltk console self q = ([], Raise e)
        end).
Proof.
  intros rt vs. split.
  - intros Hkey. unfold __init__. rewrite Hkey. reflexivity.
  - intros tr self Hinit.
    assert (Hkey : GEMINI_API_KEY rt <> []).
    { intros Hk. unfold __init__ in Hinit. rewrite Hk in Hinit.
      cbn [is_empty] in Hinit. discriminate. }
    pose proof (init_cases rt vs Hkey) as H.
    destruct (new_chat rt _ _ _) as [the_llm|e];
      [|rewrite H in Hinit; discriminate].
    destruct (runtime_new_embeddings rt _ _) as [embeddings|e];
      [|rewrite H in Hinit; discriminate].
    cbv zeta in H. rewrite Hinit in H. cbn [snd] in H.
    set (store := if truthy vs then vs
                  else match Chroma_open rt RagEngineConfig.VECTOR_STORE_PATH
                               embeddings with
                       | Ok s => Some s
                       | Raise _ => None
                       end) in *.
    destruct (truthy store) eqn:Hst; [|discriminate].
    injection H as ->. cbn [vector_store retriever lda_model].
    split; [exact Hkey|]. split; [exact Hst|].
    destruct store as [s|]; [|discriminate].
    split; [eexists; reflexivity|]. split; [reflexivity|].
    intros U nltk console q.
    match goal with
    | |- context [query U nltk console ?e q] => set (eng := e) in *
    end.
    destruct (console_print console (processing_line q)) as [[]|e0] eqn:Hp.
    2:{ apply query_print_raises; assumption. }
    pose proof (query_body_cases U nltk console eng q Hst Hp) as Hq.
    cbn [retriever_invoke retriever] in Hq. unfold eng in Hq at 1.
    cbn [retriever_invoke retriever call] in Hq.
    destruct (invoke (as_retriever rt s 3) q) as [docs|e].
    + destruct (_format_docs_with_topics U nltk eng docs) as [context|e].
      * cbv zeta in Hq.
        destruct (llm_invoke (llm eng) (comprehensive_prompt context q));
          rewrite Hq; cbn [app]; eauto.
      * rewrite Hq. eauto.
    + rewrite Hq. eauto.
Qed.

Lemma init_engine_is_ready_witness :
  exists tr' answer,
    query Demo.unicode Demo.nltk Demo.utf8_console
      {| llm := Demo.chat;
         vector_store := Some {| store_bool := true |};
         retriever := Some Demo.the_retriever;
         lda_model := None |} (lit "q")
    = (EvRetrieve (lit "q") :: tr', Ok answer).
Proof.
  exact (proj2 (proj2 (proj2 (proj2
           (proj2 (init_engine_is_ready
                     (DemoHost.runtime (lit "key")
                        (Ok {| store_bool := true |}))
                     None)
              [StNewChat RagEngineConfig.GENERATION_MODEL;
               StNewEmbeddings RagEngineConfig.EMBEDDING_MODEL;
               StChromaOpen RagEngineConfig.VECTOR_STORE_PATH;
               StPickleLoad RagEngineConfig.LDA_MODEL_PATH]
              _ eq_refl))))
           Demo.unicode Demo.nltk Demo.utf8_console (lit "q")).
Defined.

(** X9. When no truthy store is given and the store on disk cannot be
    opened, or is falsy, the constructor does not return an engine: building
    the chain from the missing retriever raises [TypeError]. *)
Theorem init_without_store_raises :
  forall (rt : Runtime) (vs : option VectorStore) the_llm embeddings,
    GEMINI_API_KEY rt <> [] ->
    new_chat rt RagEngineConfig.GENERATION_MODEL (GEMINI_API_KEY rt) (1 # 10)%Q
    = Ok the_llm ->
    runtime_new_embeddings rt RagEngineConfig.EMBEDDING_MODEL
      (Some (GEMINI_API_KEY rt)) = Ok embeddings ->
    truthy vs = false ->
    truthy (match Chroma_open rt RagEngineConfig.VECTOR_STORE_PATH embeddings with
            | Ok s => Some s
            | Raise _ => None
            end) = false ->
    snd (__init__ rt vs)
    = Raise (Exn TypeError
               (lit "unsupported operand type(s) for |: 'NoneType' and 'method'")).
Proof.
  intros rt vs the_llm embeddings Hkey Hllm Hemb Hvs Hdisk.
  pose proof (init_cases rt vs Hkey) as H.
  rewrite Hllm, Hemb in H. cbv zeta in H. rewrite Hvs in H.
  rewrite Hdisk in H. exact H.
Qed.

Lemma init_without_store_raises_witness :
  snd (__init__ (DemoHost.runtime (lit "key")
                   (Raise (Exn OtherException (lit "no such directory"))))
         None)
  = Raise (Exn TypeError
             (lit "unsupported operand type(s) for |: 'NoneType' and 'method'")).
Proof.
  apply (@init_without_store_raises
           (DemoHost.runtime (lit "key")
              (Raise (Exn OtherException (lit "no such directory"))))
           None Demo.chat
           {| embeddings_model := RagEngineConfig.EMBEDDING_MODEL;
              embeddings_key := Some (lit "key") |});
    [discriminate | reflexivity | reflexivity | reflexivity | reflexivity].
Defined.

(** ** The batch job *)

Lemma load_documents_steps (Dictionary CountVectorizer : Type)
  (host : Host Dictionary CountVectorizer) (dir : str) :
  Forall (fun s => is_load_step s = true) (fst (load_documents host dir)).
Proof.
  unfold load_documents, tbind, tcall.
  destruct (console_print (stdout host) _) as [u|e]; [|constructor].
  destruct (os_listdir host dir) as [names|e]; [|repeat constructor].
  pose proof (@load_loop_steps _ _ host dir names []) as H.
  destruct (load_loop host dir names []) as [tr r]. cbn [fst app] in *.
  constructor; [reflexivity | exact H].
Qed.

Ltac not_a_load_step H :=
  match type of H with
  | In ?s ?l =>
      let F := fresh in
      match goal with
      | HF : Forall (fun s => is_load_step s = true) l |- _ =>
          pose proof (proj1 (Forall_forall _ _) HF s H) as F; discriminate F
      end
  end.

Ltac split_in H :=
  repeat match type of H with
         | In _ (_ ++ _) => apply in_app_or in H; destruct H as [H|H]
         | In _ (_ :: _) => destruct H as [H|H]; [try discriminate H|]
         | In _ [] => destruct H
         end;
  try not_a_load_step H.

(** X10. The batch job does nothing without an API key.  It trains the
    topic model only on a non-empty list of texts.  It builds the vector
    store only after the documents were loaded, the topic model was trained
    on their texts, the model, the dictionary and the vectorizer were all
    saved, and the documents were split; the store is built from those
    chunks, in the directory the engine opens. *)
Theorem main_order :
  forall U nltk (Dictionary CountVectorizer GlobalRandom : Type)
         (libs : TopicLibs Dictionary CountVectorizer GlobalRandom)
         (host : Host Dictionary CountVectorizer) (g : GlobalRandom),
    let tr := fst (main U nltk libs host g) in
    (environ_set host "GEMINI_API_KEY" = false ->
     main U nltk libs host g = ([], Ok tt))
    /\
    (forall texts, In (StTrain texts) tr -> texts <> [])
    /\
    (forall chunks dir,
        In (StChromaFromDocuments chunks dir) tr ->
        exists ltr docs m d v,
          load_documents host DataProcessorConfig.RAW_DATA_PATH = (ltr, Ok docs) /\
          train_lda_model U nltk libs g (map page_content docs) = Ok (m, d, v) /\
          pickle_dump host DataProcessorConfig.LDA_MODEL_PATH (PickledLda _ _ m)
          = Ok tt /\
          pickle_dump host DataProcessorConfig.DICTIONARY_PATH
            (PickledDictionary _ d) = Ok tt /\
          pickle_dump host DataProcessorConfig.COUNT_VECTORIZER_PATH
            (PickledVectorizer _ v) = Ok tt /\
          split_documents docs = Ok chunks /\
          dir = RagEngineConfig.VECTOR_STORE_PATH).
Proof.
  intros U nltk Dictionary CountVectorizer GlobalRandom libs host g tr.
  subst tr. unfold main.
  destruct (environ_set host "GEMINI_API_KEY") eqn:Hkey; cbn [negb].
  2:{ split; [reflexivity|]. split; intros; cbn in *; contradiction. }
  split; [discriminate|].
  pose proof (load_documents_steps host DataProcessorConfig.RAW_DATA_PATH)
    as Hsteps.
  unfold save_lda_model, build_vector_store, extract_text_from_documents,
    tbind, tcall, tret.
  destruct (os_makedirs host _) as [[]|e].
  2:{ split; intros; cbn in *; intuition discriminate. }
  destruct (load_documents host DataProcessorConfig.RAW_DATA_PATH)
    as [ltr [docs|e]] eqn:Hload; cbn [fst] in Hsteps.
  2:{ split; intros ? ? ; [|intros ?]; cbn [fst] in *;
        match goal with H : In _ _ |- _ => split_in H end. }
  destruct docs as [|d0 drest]; cbn [is_empty negb].
  { split; intros ? ? ; [|intros ?]; cbn [fst] in *;
      match goal with H : In _ _ |- _ => split_in H end. }
  set (docs := d0 :: drest) in *.
  destruct (train_lda_model U nltk libs g (map page_content docs))
    as [[[m d] v]|e] eqn:Htrain.
  2:{ split.
      - intros texts H. cbn [fst] in H. split_in H.
        injection H as <-. discriminate.
      - intros chunks dir H. cbn [fst] in H. split_in H. }
  destruct (pickle_dump host DataProcessorConfig.LDA_MODEL_PATH _)
    as [[]|e] eqn:Hp1.
  2:{ split.
      - intros texts H. cbn [fst] in H. split_in H.
        injection H as <-. discriminate.
      - intros chunks dir H. cbn [fst] in H. split_in H. }
  destruct (pickle_dump host DataProcessorConfig.DICTIONARY_PATH _)
    as [[]|e] eqn:Hp2.
  2:{ split.
      - intros texts H. cbn [fst] in H. split_in H.
        injection H as <-. discriminate.
      - intros chunks dir H. cbn [fst] in H. split_in H. }
  destruct (pickle_dump host DataProcessorConfig.COUNT_VECTORIZER_PATH _)
    as [[]|e] eqn:Hp3.
  2:{ split.
      - intros texts H. cbn [fst] in H. split_in H.
        injection H as <-. discriminate.
      - intros chunks dir H. cbn [fst] in H. split_in H. }
  destruct (split_documents docs) as [chunks0|e] eqn:Hsplit.
  2:{ split.
      - intros texts H. cbn [fst] in H. split_in H.
        injection H as <-. discriminate.
      - intros chunks dir H. cbn [fst] in H. split_in H. }
  destruct (new_embeddings host _ _) as [emb|e].
  2:{ split.
      - intros texts H. cbn [fst] in H. split_in H.
        injection H as <-. discriminate.
      - intros chunks dir H. cbn [fst] in H. split_in H. }
  assert (Hgoal :
    forall chunks dir,
      StChromaFromDocuments chunks0 DataProcessorConfig.VECTOR_STORE_PATH
      = StChromaFromDocuments chunks dir ->
      exists ltr' docs' m' d' v',
        (ltr, Ok docs) = (ltr', Ok docs') /\
        train_lda_model U nltk libs g (map page_content docs')
        = Ok (m', d', v') /\
        pickle_dump host DataProcessorConfig.LDA_MODEL_PATH (PickledLda _ _ m')
        = Ok tt /\
        pickle_dump host DataProcessorConfig.DICTIONARY_PATH
          (PickledDictionary _ d') = Ok tt /\
        pickle_dump host DataProcessorConfig.COUNT_VECTORIZER_PATH
          (PickledVectorizer _ v') = Ok tt /\
        split_documents docs' = Ok chunks /\
        dir = RagEngineConfig.VECTOR_STORE_PATH).
  { intros chunks dir E. injection E as <- <-.
    exists ltr, docs, m, d, v. repeat split; assumption || reflexivity. }
  destruct (Chroma_from_documents host chunks0 emb _) as [db|e].
  2:{ split.
      - intros texts H. cbn [fst] in H. split_in H.
        injection H as <-. discriminate.
      - intros chunks dir H. cbn [fst] in H. split_in H.
        apply Hgoal. exact H. }
  destruct (persist host db) as [[]|e].
  - split.
    + intros texts H. cbn [fst] in H. split_in H.
      injection H as <-. discriminate.
    + intros chunks dir H. cbn [fst] in H. split_in H.
      apply Hgoal. exact H.
  - split.
    + intros texts H. cbn [fst] in H. split_in H.
      injection H as <-. discriminate.
    + intros chunks dir H. cbn [fst] in H. split_in H.
      apply Hgoal. exact H.
Qed.

Example main_demo :
  main Demo.unicode Demo.nltk DemoTraining.libs
    (DemoHost.host (Some (lit "key")) DemoHost.names) 0%N
  = ([StMakedirs (lit "data/vectorstore/");
      StListdir (lit "data/raw/");
      StLoadPdf (lit "data/raw/irc67.pdf");
      StLoadPdf (lit "data/raw/broken.pdf");
      StLoadPdf (lit "data/raw/morth.pdf");
      StTrain [lit "Zebra crossings follow IRC:67.";
               lit "Road speed limit signs.";
               lit "Speed limit enforcement on the road."];
      StPickleDump (lit "data/vectorstore/lda_model.pkl");
      StPickleDump (lit "data/vectorstore/lda_dictionary.pkl");
      StPickleDump (lit "data/vectorstore/count_vectorizer.pkl");
      StSplit [DemoHost.page "Zebra crossings follow IRC:67." "irc67.pdf";
               DemoHost.page "Road speed limit signs." "irc67.pdf";
               DemoHost.page "Speed limit enforcement on the road." "morth.pdf"];
      StNewEmbeddings (lit "models/text-embedding-004");
      StChromaFromDocuments
        [DemoHost.page "Zebra crossings follow IRC:67." "irc67.pdf";
         DemoHost.page "Road speed limit signs." "irc67.pdf";
         DemoHost.page "Speed limit enforcement on the road." "morth.pdf"]
        (lit "data/vectorstore/");
      StPersist],
     Ok tt).
Proof. vm_compute. reflexivity. Qed.

Example main_demo_empty_directory :
  main Demo.unicode Demo.nltk DemoTraining.libs
    (DemoHost.host (Some (lit "key")) [lit "notes.txt"]) 0%N
  = ([StMakedirs (lit "data/vectorstore/"); StListdir (lit "data/raw/")],
     Ok tt).
Proof. vm_compute. reflexivity. Qed.

Lemma load_step_names_agree (s : step) :
  is_load_step s = true -> names_agree s.
Proof. destruct s; cbn; intros H; try discriminate H; exact I. Qed.

Ltac names_agree_list :=
  cbn [fst];
  repeat match goal with
         | |- Forall _ (_ ++ _) => apply Forall_app; split
         | |- Forall _ (_ :: _) => constructor
         | |- Forall _ [] => constructor
         | H : Forall (fun s => is_load_step s = true) ?l
           |- Forall names_agree ?l =>
             apply (Forall_impl _ load_step_names_agree H)
         | |- names_agree _ => cbn; auto
         end.

(** X11. The batch job and the constructor of the engine name the same
    things: every embedding client either creates is for
    "models/text-embedding-004", the store is written to and opened from
    "data/vectorstore/", and the topic model is read from the file
    "data/vectorstore/lda_model.pkl", one of the three files the job writes. *)
Theorem names_agree_everywhere :
  forall U nltk (Dictionary CountVectorizer GlobalRandom : Type)
         (libs : TopicLibs Dictionary CountVectorizer GlobalRandom)
         (host : Host Dictionary CountVectorizer) (g : GlobalRandom)
         (rt : Runtime) (vs : option VectorStore),
    Forall names_agree (fst (main U nltk libs host g)) /\
    Forall names_agree (fst (__init__ rt vs)).
Proof.
  intros U nltk Dictionary CountVectorizer GlobalRandom libs host g rt vs.
  split.
  - unfold main.
    destruct (environ_set host "GEMINI_API_KEY"); cbn [negb];
      [|constructor].
    pose proof (load_documents_steps host DataProcessorConfig.RAW_DATA_PATH)
      as Hsteps.
    unfold save_lda_model, build_vector_store, extract_text_from_documents,
      tbind, tcall, tret.
    destruct (os_makedirs host _) as [[]|e]; [|names_agree_list].
    destruct (load_documents host DataProcessorConfig.RAW_DATA_PATH)
      as [ltr [docs|e]]; cbn [fst] in Hsteps; [|names_agree_list].
    destruct docs as [|d0 drest]; cbn [is_empty negb]; [names_agree_list|].
    destruct (train_lda_model U nltk libs g _) as [[[m d] v]|e];
      [|names_agree_list].
    destruct (pickle_dump host DataProcessorConfig.LDA_MODEL_PATH _)
      as [[]|e]; [|names_agree_list].
    destruct (pickle_dump host DataProcessorConfig.DICTIONARY_PATH _)
      as [[]|e]; [|names_agree_list].
    destruct (pickle_dump host DataProcessorConfig.COUNT_VECTORIZER_PATH _)
      as [[]|e]; [|names_agree_list].
    destruct (split_documents (d0 :: drest)) as [chunks|e];
      [|names_agree_list].
    destruct (new_embeddings host _ _) as [emb|e]; [|names_agree_list].
    destruct (Chroma_from_documents host chunks emb _) as [db|e];
      [|names_agree_list].
    destruct (persist host db) as [[]|e]; names_agree_list.
  - unfold __init__.
    destruct (is_empty (GEMINI_API_KEY rt)); [constructor|].
    unfold load_store, load_lda, tbind, tcall, tret.
    destruct (new_chat rt _ _ _) as [the_llm|e]; [|names_agree_list].
    destruct (runtime_new_embeddings rt _ _) as [embeddings|e];
      [|names_agree_list].
    destruct (truthy vs).
    + destruct vs as [s|]; [destruct (store_bool s)|];
        destruct (pickle_load rt _); names_agree_list.
    + destruct (Chroma_open rt _ embeddings) as [s|e];
        [destruct (store_bool s)|];
        destruct (pickle_load rt _); names_agree_list.
Qed.

(** ** Input validation *)

Lemma query_empty_question_demo :
  query Demo.unicode Demo.nltk Demo.utf8_console Demo.engine []
  = ([EvRetrieve [];
      EvGenerate
        (comprehensive_prompt
           (lit "[Topic Summary: Topic 2: road, speed, limit, sign, zone]"
            ++ [NL] ++ lit "The Road speed limit is 50") [])],
     Ok (lit "ok", [Demo.chunk])).
Proof. reflexivity. Qed.

(** The empty question is not rejected: the engine of the small world calls
    the retriever and the generation model with it and returns the answer. *)
Lemma query_empty_question_not_rejected :
  ~ rejected_without_remote_call
      (query Demo.unicode Demo.nltk Demo.utf8_console Demo.engine []).
Proof.
  rewrite query_empty_question_demo. intros [Htrace _]. discriminate Htrace.
Qed.

Lemma load_step_not_remote (s : step) :
  is_load_step s = true -> is_remote_step s = false.
Proof. destruct s; cbn; intros H; try discriminate H; reflexivity. Qed.

Ltac no_remote_step H Hrem :=
  repeat match type of H with
         | In _ (_ ++ _) => apply in_app_or in H; destruct H as [H|H]
         | In _ (_ :: _) =>
             destruct H as [H|H]; [subst; discriminate Hrem|]
         | In _ [] => destruct H
         end;
  try match type of H with
      | In ?s ?l =>
          match goal with
          | HF : Forall (fun s => is_load_step s = true) l |- _ =>
              let F := fresh in
              pose proof (proj1 (Forall_forall _ _) HF s H) as F;
              apply load_step_not_remote in F; congruence
          end
      end.

(** The batch job reaches the embedding service only after the topic model
    was trained, with success, on a non-empty list of texts. *)
Lemma main_remote_after_training
  U nltk (Dictionary CountVectorizer GlobalRandom : Type)
  (libs : TopicLibs Dictionary CountVectorizer GlobalRandom)
  (host : Host Dictionary CountVectorizer) (g : GlobalRandom) (s : step) :
  In s (fst (main U nltk libs host g)) ->
  is_remote_step s = true ->
  exists texts m d v,
    texts <> [] /\
    In (StTrain texts) (fst (main U nltk libs host g)) /\
    train_lda_model U nltk libs g texts = Ok (m, d, v).
Proof.
  unfold main.
  destruct (environ_set host "GEMINI_API_KEY"); cbn [negb];
    [|intros H; destruct H].
  pose proof (load_documents_steps host DataProcessorConfig.RAW_DATA_PATH)
    as Hsteps.
  unfold save_lda_model, build_vector_store, extract_text_from_documents,
    tbind, tcall, tret.
  destruct (os_makedirs host _) as [[]|e];
    [|intros H Hrem; cbn [fst] in H; no_remote_step H Hrem].
  destruct (load_documents host DataProcessorConfig.RAW_DATA_PATH)
    as [ltr [docs|e]]; cbn [fst] in Hsteps;
    [|intros H Hrem; cbn [fst] in H; no_remote_step H Hrem].
  destruct docs as [|d0 drest]; cbn [is_empty negb];
    [intros H Hrem; cbn [fst] in H; no_remote_step H Hrem|].
  set (docs := d0 :: drest) in *.
  destruct (train_lda_model U nltk libs g (map page_content docs))
    as [[[m d] v]|e] eqn:Htrain;
    [|intros H Hrem; cbn [fst] in H; no_remote_step H Hrem].
  intros _ _. exists (map page_content docs), m, d, v.
  split; [discriminate|]. split; [|exact Htrain].
  destruct (pickle_dump host DataProcessorConfig.LDA_MODEL_PATH _) as [[]|e1];
    [|cbn [fst app]; right; apply in_or_app; right; left; reflexivity].
  destruct (pickle_dump host DataProcessorConfig.DICTIONARY_PATH _)
    as [[]|e2];
    [|cbn [fst app]; right; apply in_or_app; right; left; reflexivity].
  destruct (pickle_dump host DataProcessorConfig.COUNT_VECTORIZER_PATH _)
    as [[]|e3];
    [|cbn [fst app]; right; apply in_or_app; right; left; reflexivity].
  destruct (split_documents docs) as [chunks|e4];
    [|cbn [fst app]; right; apply in_or_app; right; left; reflexivity].
  destruct (new_embeddings host _ _) as [emb|e5];
    [|cbn [fst app]; right; apply in_or_app; right; left; reflexivity].
  destruct (Chroma_from_documents host chunks emb _) as [db|e6];
    [|cbn [fst app]; right; apply in_or_app; right; left; reflexivity].
  destruct (persist host db) as [[]|e7];
    cbn [fst app]; right; apply in_or_app; right; left; reflexivity.
Qed.

(** C8, as the code has it.  An empty corpus is rejected, an empty question
    is not.  [query] has no check of the question: with a store and a
    retriever loaded it hands the empty question to the retriever like any
    other question, and to the generation model when retrieval and
    formatting return.  [train_lda_model] on an empty corpus raises the error
    that scikit-learn's vectorizer raises for no documents, and returns no
    model; and the batch job reaches the embedding service only after a
    training that succeeded on a non-empty list of texts. *)
Theorem malformed_input_handling : forall U nltk,
  (forall console (self : RAGEngine) r,
      truthy (vector_store self) = true ->
      retriever self = Some r ->
      console_print console (processing_line []) = Ok tt ->
      exists tr answer docs,
        query U nltk console self [] = (EvRetrieve [] :: tr, Ok (answer, docs)) /\
        (forall ds context content,
            invoke r [] = Ok ds ->
            _format_docs_with_topics U nltk self ds = Ok context ->
            llm_invoke (llm self) (comprehensive_prompt context []) = Ok content ->
            tr = [EvGenerate (comprehensive_prompt context [])] /\
            answer = postprocess content /\ docs = ds))
  /\
  (forall (Dictionary CountVectorizer GlobalRandom : Type)
          (libs : TopicLibs Dictionary CountVectorizer GlobalRandom)
          (g : GlobalRandom) (e : exn),
      fit_transform libs MAX_FEATURES "english" [] = Raise e ->
      (forall r, train_lda_model U nltk libs g [] <> Ok r) /\
      (forall d0 d,
          Dictionary_new libs [] = Ok d0 ->
          filter_extremes libs d0 2 (1 # 2) = Ok d ->
          train_lda_model U nltk libs g [] = Raise e))
  /\
  (forall (Dictionary CountVectorizer GlobalRandom : Type)
          (libs : TopicLibs Dictionary CountVectorizer GlobalRandom)
          (host : Host Dictionary CountVectorizer) (g : GlobalRandom)
          (s : step),
      In s (fst (main U nltk libs host g)) ->
      is_remote_step s = true ->
      exists texts m d v,
        texts <> [] /\
        In (StTrain texts) (fst (main U nltk libs host g)) /\
        train_lda_model U nltk libs g texts = Ok (m, d, v)).
Proof.
  intros U nltk. split; [|split].
  - intros console self r Ht Hr Hp.
    pose proof (query_body_cases U nltk console self [] Ht Hp) as H.
    unfold retriever_invoke in H. rewrite Hr in H. unfold call in H.
    destruct (invoke r []) as [ds|e] eqn:Hinv.
    + destruct (_format_docs_with_topics U nltk self ds) as [context|e]
        eqn:Hfmt.
      * cbv zeta in H.
        destruct (llm_invoke (llm self) (comprehensive_prompt context []))
          as [content|e] eqn:Hllm.
        -- eexists _, _, _. split; [exact H|].
           intros ds' context' content' Hd Hc Hl.
           injection Hd as <-. rewrite Hfmt in Hc. injection Hc as <-.
           rewrite Hllm in Hl. injection Hl as <-. auto.
        -- eexists _, _, _. split; [exact H|].
           intros ds' context' content' Hd Hc Hl.
           injection Hd as <-. rewrite Hfmt in Hc. injection Hc as <-.
           rewrite Hllm in Hl. discriminate.
      * eexists [], _, _. split; [exact H|].
        intros ds' context' content' Hd Hc Hl.
        injection Hd as <-. rewrite Hfmt in Hc. discriminate.
    + eexists [], _, _. split; [exact H|].
      intros ds' context' content' Hd. discriminate.
  - intros Dictionary CountVectorizer GlobalRandom libs g e Hfit.
    assert (Hcases :
      match Dictionary_new libs [] with
      | Ok d0 =>
          match filter_extremes libs d0 2 (1 # 2) with
          | Ok _ => train_lda_model U nltk libs g [] = Raise e
          | Raise e' => train_lda_model U nltk libs g [] = Raise e'
          end
      | Raise e' => train_lda_model U nltk libs g [] = Raise e'
      end).
    { unfold train_lda_model. cbn [rmap rbind].
      destruct (Dictionary_new libs []) as [d0|e']; [|reflexivity].
      cbn [rbind].
      destruct (filter_extremes libs d0 2 (1 # 2)) as [d|e']; [|reflexivity].
      cbn [rbind rmap]. rewrite Hfit. reflexivity. }
    split.
    + intros r Hr.
      destruct (Dictionary_new libs []) as [d0|e'];
        [destruct (filter_extremes libs d0 2 (1 # 2))|];
        rewrite Hcases in Hr; discriminate.
    + intros d0 d Hd0 Hd. rewrite Hd0, Hd in Hcases. exact Hcases.
  - intros Dictionary CountVectorizer GlobalRandom libs host g s.
    apply main_remote_after_training.
Qed.

(** The empty question for the engine of the small world; the empty corpus
    for the vectorizer that refuses it. *)
Lemma malformed_input_handling_witness :
  (exists tr answer docs,
      query Demo.unicode Demo.nltk Demo.utf8_console Demo.engine []
      = (EvRetrieve [] :: tr, Ok (answer, docs)) /\
      (forall ds context content,
          invoke Demo.the_retriever [] = Ok ds ->
          _format_docs_with_topics Demo.unicode Demo.nltk Demo.engine ds
          = Ok context ->
          llm_invoke (llm Demo.engine) (comprehensive_prompt context [])
          = Ok content ->
          tr = [EvGenerate (comprehensive_prompt context [])] /\
          answer = postprocess content /\ docs = ds))
  /\
  train_lda_model Demo.unicode Demo.nltk DemoTraining.libs 0%N []
  = Raise (Exn ValueError
             (lit "empty vocabulary; perhaps the documents only contain stop words")).
Proof.
  split.
  - apply (proj1 (malformed_input_handling Demo.unicode Demo.nltk)
             Demo.utf8_console Demo.engine Demo.the_retriever);
      reflexivity.
  - apply (proj2 (proj1 (proj2 (malformed_input_handling Demo.unicode
                                  Demo.nltk))
                    _ _ _ DemoTraining.libs 0%N _ eq_refl)
             [] []);
      reflexivity.
Defined.
